(** * MEDimage: polygon masks, box cropping and DICOM scans

    A shallow embedding of

      - [src/MEDimage/processing/compute_box.py]      ([compute_box])
      - [src/MEDimage/processing/get_polygon_mask.py] ([get_polygon_mask])
      - [src/MEDimage/processing/process_dicom_scan_files.py]
        (the computations of [process_dicom_scan_files])

    Conventions of the embedding.

      - World and intrinsic coordinates are exact rationals ([Q]);
        equalities between them are stated with [==] ([Qeq]).
      - The margin of [compute_box] is computed as NumPy computes it:
        [float()] gives the binary64 number nearest to the decimal text,
        the factor and the margin are binary64 values ([F64]),
        [.astype(int)] converts to [int64] as on x86-64, and [int64]
        sums and differences wrap around ([I64]).  The indices and the
        extents of an array are numbers below [2^52]; where a definition
        writes an exact integer operation for one of NumPy, its comment
        says why the two agree on them.
      - A 3-D [ndarray] is a rectangular nested list indexed [[i][j][k]].
      - A Python exception is a value of [py_error]; functions that can
        raise return a [result].
      - The [while] loop of [compute_box] is run with fuel; running out of
        fuel is the outcome [Err OutOfFuel] and never stands for a Python
        result. *)

From Stdlib Require Import ZArith QArith Qround Qabs Qpower Qreduction.
From Stdlib Require Import String Ascii Bool Lia Lqa List.
Import ListNotations.

Open Scope Z_scope.

(* ================================================================== *)
(** ** Exceptions and the error monad *)

Inductive py_error : Type :=
| InvalidOrientation   (* ValueError raised by get_polygon_mask, line 51 *)
| FloatParseError      (* ValueError raised by float(...)               *)
| BroadcastError       (* ValueError: operands could not be broadcast   *)
| NegativeDimension    (* ValueError raised by np.zeros                 *)
| EmptySequence        (* ValueError: argmax of an empty sequence       *)
| EmptyROI             (* bounding box of a mask without a set voxel    *)
| IndexError           (* index out of bounds for an axis               *)
| UnboundLocalError    (* local variable referenced before assignment   *)
| OutOfFuel.           (* the model ran out of fuel: no Python outcome  *)

Inductive result (A : Type) : Type :=
| Ok  (a : A)
| Err (e : py_error).
Arguments Ok {A} a.
Arguments Err {A} e.

Definition bind {A B} (r : result A) (k : A -> result B) : result B :=
  match r with
  | Ok a => k a
  | Err e => Err e
  end.

Notation "x <- r ;; k" := (bind r (fun x => k))
  (at level 61, r at next level, right associativity).
Notation "' p <- r ;; k" := (bind r (fun p => k))
  (at level 61, p pattern, r at next level, right associativity).

(* ================================================================== *)
(** ** NumPy scalars *)

Module Np.

(** [np.round]: round half to even *)
Definition round (q : Q) : Z :=
  let f := Qfloor q in
  match (q - inject_Z f ?= 1 # 2)%Q with
  | Lt => f
  | Gt => f + 1
  | Eq => if Z.even f then f else f + 1
  end.

(** [.astype(int)] on the slice number of a contour: truncation toward
    zero.  A number beyond the [int64] range becomes [-2^63] in NumPy
    ([F64.astype_int]); it indexes no slice of an array either way. *)
Definition astype_int (q : Q) : Z :=
  if Qle_bool 0 q then Qfloor q else Qceiling q.

(** [np.floor(n / 2.0)] on an integer-valued entry *)
Definition floor_half (n : Z) : Z := n / 2.

End Np.

(* ================================================================== *)
(** ** [int64] *)

Module I64.

Definition min : Z := - 2 ^ 63.
Definition max : Z := 2 ^ 63 - 1.

Definition in_range (z : Z) : bool := (min <=? z) && (z <=? max).

(** the [int64] that holds [z] modulo [2^64] *)
Definition wrap (z : Z) : Z := (z + 2 ^ 63) mod 2 ^ 64 - 2 ^ 63.

(** the conversion of an integral [float64] value to [int64], as
    NumPy does it on x86-64: a value outside the range, an infinity or a
    NaN gives [-2^63] *)
Definition cast (z : Z) : Z := if in_range z then z else min.

(** [i - n] and [i + n] in [int64], for an index [i] of an array and an
    [int64] [n]: an index is not negative, so the difference can only
    overflow for [n < 0] and the sum for [0 < n] *)
Definition sub_index (i n : Z) : Z := if n <? 0 then wrap (i - n) else i - n.
Definition add_index (i n : Z) : Z := if 0 <? n then wrap (i + n) else i + n.

(** [hi - lo + 1] in [int64], for the two bounds of a box: the upper
    bound exceeds the lower one by less than the extent of an array, so
    only a negative difference can overflow *)
Definition extent (lo hi : Z) : Z :=
  if hi <? lo then wrap (hi - lo + 1) else hi - lo + 1.

End I64.

(* ================================================================== *)
(** ** [float64] *)

Module F64.

(** A binary64 value: a finite one by its exact rational value, the two
    infinities and NaN.  The sign of a zero is not kept: [compute_box]
    applies to its floats only comparisons, sums, products, halvings and
    the conversion to [int64], none of which tells the two zeros apart. *)
Inductive t : Type :=
| Finite (q : Q)
| Infinity (negative : bool)
| NaN.

Definition pow2 (e : Z) : Q := Qpower 2 e.

Definition negative (q : Q) : bool := negb (Qle_bool 0 q).

(** [floor(log2 |q|)] for [q <> 0] *)
Definition exponent (q : Q) : Z :=
  let e := Z.log2 (Z.abs (Qnum q)) - Z.log2 (Zpos (Qden q)) in
  if Qle_bool (pow2 e) (Qabs q) then e else e - 1.

(** the exponent of the unit in the last place around [q]: 53 significant
    bits, and [2^-1074] for the subnormal numbers *)
Definition last_place (q : Q) : Z := Z.max (exponent q - 52) (- 1074).

(** the binary64 value nearest to [q], ties to the even significand; a
    magnitude that rounds to [2^1024] overflows to an infinity *)
Definition nearest (q : Q) : t :=
  if Qeq_bool q 0 then Finite 0
  else
    let u := pow2 (last_place q) in
    let v := Qred (inject_Z (Np.round (q / u)) * u) in
    if Qle_bool (pow2 1024) (Qabs v) then Infinity (negative q)
    else Finite v.

(** the conversion of an integer ([int64], Python [int]) to [float64] *)
Definition of_int (z : Z) : t := nearest (inject_Z z).

Definition mul (x y : t) : t :=
  match x, y with
  | NaN, _ | _, NaN => NaN
  | Finite a, Finite b => nearest (a * b)
  | Finite a, Infinity s | Infinity s, Finite a =>
      if Qeq_bool a 0 then NaN else Infinity (xorb s (negative a))
  | Infinity s, Infinity s' => Infinity (xorb s s')
  end.

Definition add (x y : t) : t :=
  match x, y with
  | NaN, _ | _, NaN => NaN
  | Finite a, Finite b => nearest (a + b)
  | Finite _, Infinity s | Infinity s, Finite _ => Infinity s
  | Infinity s, Infinity s' => if Bool.eqb s s' then Infinity s else NaN
  end.

Definition sub (x y : t) : t :=
  match x, y with
  | NaN, _ | _, NaN => NaN
  | Finite a, Finite b => nearest (a - b)
  | Finite _, Infinity s => Infinity (negb s)
  | Infinity s, Finite _ => Infinity s
  | Infinity s, Infinity s' => if Bool.eqb s s' then NaN else Infinity s
  end.

(** [x / 2.0] *)
Definition half (x : t) : t :=
  match x with
  | Finite a => nearest (a / 2)
  | _ => x
  end.

(** [np.round(x)]: the nearest integer, ties to even; it is a binary64
    value whenever [x] is *)
Definition rint (x : t) : t :=
  match x with
  | Finite a => Finite (inject_Z (Np.round a))
  | _ => x
  end.

(** [x.astype(int)]: truncation toward zero, in [int64] *)
Definition astype_int (x : t) : Z :=
  match x with
  | Finite a => I64.cast (Np.astype_int a)
  | _ => I64.min
  end.

End F64.

(* ================================================================== *)
(** ** Python strings *)

Module PyStr.

(** [sub in s] *)
Definition contains (sub s : string) : bool :=
  match String.index 0 sub s with
  | Some _ => true
  | None => false
  end.

(** [s.find(sub)]: first occurrence or -1 *)
Definition find (sub s : string) : Z :=
  match String.index 0 sub s with
  | Some n => Z.of_nat n
  | None => -1
  end.

(** [s[a:]] for [0 <= a] *)
Definition from (a : Z) (s : string) : string :=
  String.substring (Z.to_nat a) (String.length s - Z.to_nat a) s.

(** [s[0:b]] for [0 <= b] *)
Definition upto (b : Z) (s : string) : string :=
  String.substring 0 (Z.to_nat b) s.

(** *** [float(s)]

    Python's [float] on an ASCII string: blanks around the text are
    dropped; then come an optional sign and either [inf], [infinity] or
    [nan] in any case, or a decimal number, digits with an optional
    fractional part and an optional exponent, where an underscore may
    stand between two digits.  The value is the binary64 number nearest
    to the decimal one.  Anything else raises [ValueError]. *)

(** the blanks that [float] drops: tab, line feed, vertical tab, form
    feed, carriage return and space *)
Definition is_space (c : ascii) : bool :=
  let n := nat_of_ascii c in
  ((9 <=? n) && (n <=? 13) || (n =? 32))%nat.

Fixpoint lstrip (s : string) : string :=
  match s with
  | String c s' => if is_space c then lstrip s' else s
  | EmptyString => s
  end.

Fixpoint rstrip (s : string) : string :=
  match s with
  | String c s' =>
      match rstrip s' with
      | EmptyString => if is_space c then EmptyString else String c EmptyString
      | t => String c t
      end
  | EmptyString => s
  end.

Definition lower_ascii (c : ascii) : ascii :=
  let n := nat_of_ascii c in
  if ((65 <=? n) && (n <=? 90))%nat then ascii_of_nat (n + 32) else c.

Fixpoint lower (s : string) : string :=
  match s with
  | String c s' => String (lower_ascii c) (lower s')
  | EmptyString => s
  end.

Definition digit_of (c : ascii) : option Z :=
  let n := Z.of_nat (nat_of_ascii c) in
  if (48 <=? n) && (n <=? 57) then Some (n - 48) else None.

(** the digits that follow a digit, each one possibly after one
    underscore: the value and the number of the digits read so far, and
    the rest of the string *)
Fixpoint more_digits (acc count : Z) (s : string) : Z * Z * string :=
  match s with
  | String c s' =>
      match digit_of c with
      | Some d => more_digits (10 * acc + d) (count + 1) s'
      | None =>
          if Ascii.eqb c "_"%char then
            match s' with
            | String c' s'' =>
                match digit_of c' with
                | Some d => more_digits (10 * acc + d) (count + 1) s''
                | None => (acc, count, s)
                end
            | EmptyString => (acc, count, s)
            end
          else (acc, count, s)
      end
  | EmptyString => (acc, count, s)
  end.

(** a run of digits that starts at the head of [s], continuing the value
    [acc] *)
Definition digit_part (acc : Z) (s : string) : option (Z * Z * string) :=
  match s with
  | String c s' =>
      match digit_of c with
      | Some d => Some (more_digits (10 * acc + d) 1 s')
      | None => None
      end
  | EmptyString => None
  end.

(** the digits of the number: the significand as an integer, the number
    of digits after the point, and the rest of the string *)
Definition significand (s : string) : option (Z * Z * string) :=
  match digit_part 0 s with
  | Some (ip, _, rest) =>
      match rest with
      | String c rest' =>
          if Ascii.eqb c "."%char then
            match digit_part ip rest' with
            | Some r => Some r
            | None => Some (ip, 0, rest')
            end
          else Some (ip, 0, rest)
      | EmptyString => Some (ip, 0, rest)
      end
  | None =>
      match s with
      | String c rest' =>
          if Ascii.eqb c "."%char then digit_part 0 rest' else None
      | EmptyString => None
      end
  end.

(** the exponent, which ends the string *)
Definition exponent_part (s : string) : option Z :=
  match s with
  | EmptyString => Some 0
  | String c s' =>
      if Ascii.eqb c "e"%char || Ascii.eqb c "E"%char then
        let '(negative, digits) :=
          match s' with
          | String c' s'' =>
              if Ascii.eqb c' "-"%char then (true, s'')
              else if Ascii.eqb c' "+"%char then (false, s'')
              else (false, s')
          | EmptyString => (false, s')
          end in
        match digit_part 0 digits with
        | Some (e, _, EmptyString) => Some (if negative then - e else e)
        | _ => None
        end
      else None
  end.

(** the value of a decimal number, before rounding *)
Definition number (s : string) : option Q :=
  match significand s with
  | Some (m, places, rest) =>
      match exponent_part rest with
      | Some e => Some (inject_Z m * Qpower 10 (e - places))%Q
      | None => None
      end
  | None => None
  end.

Definition float (s : string) : result F64.t :=
  let s := rstrip (lstrip s) in
  let '(negative, body) :=
    match s with
    | String c s' =>
        if Ascii.eqb c "-"%char then (true, s')
        else if Ascii.eqb c "+"%char then (false, s')
        else (false, s)
    | EmptyString => (false, s)
    end in
  let name := lower body in
  if String.eqb name "inf" || String.eqb name "infinity" then
    Ok (F64.Infinity negative)
  else if String.eqb name "nan" then Ok F64.NaN
  else
    match number body with
    | Some q => Ok (F64.nearest (if negative then - q else q))
    | None => Err FloatParseError
    end.

End PyStr.

(* ================================================================== *)
(** ** Arrays *)

Definition array2 (A : Type) : Type := list (list A).
Definition array3 (A : Type) : Type := list (list (list A)).

Definition Zlen {A} (l : list A) : Z := Z.of_nat (length l).

(** [v.shape] of a rectangular 3-D array *)
Definition shape3 {A} (v : array3 A) : Z * Z * Z :=
  let plane := hd [] v in
  (Zlen v, Zlen plane, Zlen (hd [] plane)).

(** a bound of a Python slice: negative bounds count from the end, and
    every bound is clamped to [0, n] *)
Definition slice_bound (n i : Z) : Z :=
  if i <? 0 then Z.max 0 (i + n) else Z.min i n.

(** [l[lo:hi]] *)
Definition py_slice {A} (lo hi : Z) (l : list A) : list A :=
  let n := Zlen l in
  let a := slice_bound n lo in
  let b := slice_bound n hi in
  firstn (Z.to_nat (b - a)) (skipn (Z.to_nat a) l).

(** [box_bound]: the 3x2 integer matrix, entry [bIJ] is [box_bound[I, J]] *)
Record bbox : Type := mk_bbox {
  b00 : Z; b01 : Z;
  b10 : Z; b11 : Z;
  b20 : Z; b21 : Z
}.

(** [v[b00:b01+1, b10:b11+1, b20:b21+1]] *)
Definition crop {A} (b : bbox) (v : array3 A) : array3 A :=
  map (fun plane =>
         map (fun line => py_slice (b20 b) (b21 b + 1) line)
             (py_slice (b10 b) (b11 b + 1) plane))
      (py_slice (b00 b) (b01 b + 1) v).

(** a list paired with its indices *)
Definition enum {A} (l : list A) : list (Z * A) :=
  combine (map Z.of_nat (seq 0 (length l))) l.

(* ================================================================== *)
(** ** Spatial reference ([utils/imref.py], not part of the sources) *)

Record imref3d : Type := mk_imref3d {
  ImageSize : Z * Z * Z;
  PixelExtentInWorldX : Q;
  PixelExtentInWorldY : Q;
  PixelExtentInWorldZ : Q;
  XWorldLimits : Q * Q;
  YWorldLimits : Q * Q;
  ZWorldLimits : Q * Q
}.

Definition with_XWorldLimits (l : Q * Q) (R : imref3d) : imref3d :=
  mk_imref3d (ImageSize R) (PixelExtentInWorldX R) (PixelExtentInWorldY R)
             (PixelExtentInWorldZ R) l (YWorldLimits R) (ZWorldLimits R).
Definition with_YWorldLimits (l : Q * Q) (R : imref3d) : imref3d :=
  mk_imref3d (ImageSize R) (PixelExtentInWorldX R) (PixelExtentInWorldY R)
             (PixelExtentInWorldZ R) (XWorldLimits R) l (ZWorldLimits R).
Definition with_ZWorldLimits (l : Q * Q) (R : imref3d) : imref3d :=
  mk_imref3d (ImageSize R) (PixelExtentInWorldX R) (PixelExtentInWorldY R)
             (PixelExtentInWorldZ R) (XWorldLimits R) (YWorldLimits R) l.

(** Modelled from the spec: the constructor [imref3d(imageSize, ex, ey, ez)]
    of [utils/imref.py].  The spec fixes the relation
    [max - min = imageSize[axis] * pixelExtent[axis]] and not where a fresh
    reference starts, so the lower limit of a fresh reference is the
    argument [w0]. *)
Definition imref3d_init (w0 : Q) (size : Z * Z * Z) (ex ey ez : Q) : imref3d :=
  let '(n0, n1, n2) := size in
  mk_imref3d size ex ey ez
             (w0, w0 + inject_Z n0 * ex)%Q
             (w0, w0 + inject_Z n1 * ey)%Q
             (w0, w0 + inject_Z n2 * ez)%Q.

(** the affine maps from an index to a world point that place index [i]
    at [min + (i + c) * ext]; [c] tells where the centres of the indices
    lie between the world limits *)
Definition index_to_world (c : Q) (R : imref3d) (i j k : Q) : Q * Q * Q :=
  ((fst (XWorldLimits R) + (i + c) * PixelExtentInWorldX R)%Q,
   (fst (YWorldLimits R) + (j + c) * PixelExtentInWorldY R)%Q,
   (fst (ZWorldLimits R) + (k + c) * PixelExtentInWorldZ R)%Q).

(** Modelled from the spec: [intrinsicToWorld] of [utils/imref.py],
    [x = worldLimits.X.min + (i - 0.5) * pixelExtentX], likewise y and z. *)
Definition intrinsicToWorld (R : imref3d) (i j k : Q) : Q * Q * Q :=
  index_to_world (- (1 # 2)) R i j k.

(** Modelled from the spec: [worldToIntrinsic] of [utils/imref.py],
    [i = (x - worldLimits.X.min) / pixelExtentX + 0.5], likewise j and k;
    no rounding. *)
Definition worldToIntrinsic (R : imref3d) (x y z : Q) : Q * Q * Q :=
  (((x - fst (XWorldLimits R)) / PixelExtentInWorldX R + (1 # 2))%Q,
   ((y - fst (YWorldLimits R)) / PixelExtentInWorldY R + (1 # 2))%Q,
   ((z - fst (ZWorldLimits R)) / PixelExtentInWorldZ R + (1 # 2))%Q).

(** [limits - c], elementwise on the pair *)
Definition limits_minus (l : Q * Q) (c : Q) : Q * Q :=
  ((fst l - c)%Q, (snd l - c)%Q).

(* ================================================================== *)
(** ** Bounding box ([processing/compute_bounding_box.py], not part of
       the sources) *)

(** indices of the voxels equal to 1 *)
Definition set_voxels (m : array3 bool) : list (Z * Z * Z) :=
  flat_map (fun '(i, plane) =>
    flat_map (fun '(j, line) =>
      flat_map (fun '(k, v) => if v : bool then [(i, j, k)] else [])
               (enum line))
             (enum plane))
           (enum m).

Definition bbox_point (p : Z * Z * Z) : bbox :=
  let '(i, j, k) := p in mk_bbox i i j j k k.

Definition bbox_add (b : bbox) (p : Z * Z * Z) : bbox :=
  let '(i, j, k) := p in
  mk_bbox (Z.min (b00 b) i) (Z.max (b01 b) i)
          (Z.min (b10 b) j) (Z.max (b11 b) j)
          (Z.min (b20 b) k) (Z.max (b21 b) k).

(** Modelled from the spec: [compute_bounding_box(mask)], the per-axis
    inclusive [minIndex, maxIndex] of the voxels equal to 1, in the
    zero-based indices that [compute_box] slices with; it fails on a mask
    without a set voxel. *)
Definition compute_bounding_box (mask : array3 bool) : result bbox :=
  match set_voxels mask with
  | [] => Err EmptyROI
  | p :: ps => Ok (fold_left bbox_add ps (bbox_point p))
  end.

(* ================================================================== *)
(** ** [compute_box]  ([processing/compute_box.py]) *)

Definition b2z (b : bool) : Z := if b then 1 else 0.

(** [np.diff(box_bound, axis=1) + 1], in [int64] *)
Definition size_box (b : bbox) : Z * Z * Z :=
  (I64.extent (b00 b) (b01 b), I64.extent (b10 b) (b11 b),
   I64.extent (b20 b) (b21 b)).

(** line 62, one axis: [np.round((size * factor - size) / 2.0).astype(int)],
    where [size] is an [int64] and [factor] a [float64] *)
Definition factor_margin (factor : F64.t) (size : Z) : Z :=
  let size_box := F64.of_int size in
  let new_box := F64.mul size_box factor in
  F64.astype_int (F64.rint (F64.half (F64.sub new_box size_box))).

(** lines 53-62: the margin [n_v] requested by [box_string], an [int64]
    array *)
Definition requested_margin (box_bound : bbox) (box_string : string)
  : result (Z * Z * Z) :=
  let ind_box := PyStr.find "box" box_string in
  if ind_box =? 0 then
    n_v <- PyStr.float (PyStr.from (ind_box + 3) box_string) ;;
    let n := F64.astype_int n_v in
    Ok (n, n, n)
  else
    factor <- PyStr.float (PyStr.upto ind_box box_string) ;;
    let '(s0, s1, s2) := size_box box_bound in
    Ok (factor_margin factor s0, factor_margin factor s1, factor_margin factor s2).

(** lines 74-80 on the six borders less 1: the number of bound checks that
    pass.  The borders are [float64] values compared with 0 and with an
    extent of the volume; they are integers, and an extent is far below
    [2^52], so the comparisons are those of the integers. *)
Definition count_checks (shape lower upper : Z * Z * Z) : Z :=
  let '(sh0, sh1, sh2) := shape in
  let '(lo0, lo1, lo2) := lower in
  let '(hi0, hi1, hi2) := upper in
  let check1 := b2z (lo0 + 1 >? 0) + b2z (lo1 + 1 >? 0) + b2z (lo2 + 1 >? 0) in
  let check2 := b2z (hi0 + 1 <=? sh0) in
  let check3 := b2z (hi1 + 1 <=? sh1) in
  let check4 := b2z (hi2 + 1 <=? sh2) in
  check1 + check2 + check3 + check4.

(** lines 67-80 in the first iteration, where [n_v] is the [int64] array
    of line 57 or 62: [box_bound[i, 0] - n_v[i]] and
    [box_bound[i, 1] + n_v[i]] are computed in [int64] *)
Definition check (shape : Z * Z * Z) (box_bound : bbox) (n_v : Z * Z * Z) : Z :=
  let '(n0, n1, n2) := n_v in
  count_checks shape
    (I64.sub_index (b00 box_bound) n0, I64.sub_index (b10 box_bound) n1,
     I64.sub_index (b20 box_bound) n2)
    (I64.add_index (b01 box_bound) n0, I64.add_index (b11 box_bound) n1,
     I64.add_index (b21 box_bound) n2).

(** lines 67-80 in the later iterations, where [n_v] is the [float64]
    array of line 85: for an index below [2^52] and a margin that is a
    halved [int64], the sign of the lower border and the comparison of the
    upper border with an extent are those of the exact difference and
    sum *)
Definition check_float (shape : Z * Z * Z) (box_bound : bbox)
           (n_v : Z * Z * Z) : Z :=
  let '(n0, n1, n2) := n_v in
  count_checks shape
    (b00 box_bound - n0, b10 box_bound - n1, b20 box_bound - n2)
    (b01 box_bound + n0, b11 box_bound + n1, b21 box_bound + n2).

(** line 85: [np.floor(n_v / 2.0)].  The entries of [n_v] are integers
    that [float64] represents, those of an [int64] array that
    [.astype(int)] made from [float64] values or halves of such, so the
    division and the floor are exact. *)
Definition halve (n_v : Z * Z * Z) : Z * Z * Z :=
  let '(n0, n1, n2) := n_v in
  (Np.floor_half n0, Np.floor_half n1, Np.floor_half n2).

(** [np.sum(n_v)], compared with [0.0] on line 86.  The three entries
    have one sign (they are halves of one number, or of the margins of one
    factor), so their [float64] sum is 0 exactly when the integers sum
    to 0. *)
Definition sum3 (n_v : Z * Z * Z) : Z :=
  let '(n0, n1, n2) := n_v in n0 + n1 + n2.

(** what [n_v] is made of: the [int64] array of lines 57 and 62, or the
    [float64] array of line 85 and the lists of floats of lines 88
    and 91 *)
Inductive dtype : Type := int64 | float64.

Definition check_as (dt : dtype) : Z * Z * Z -> bbox -> Z * Z * Z -> Z :=
  match dt with
  | int64 => check
  | float64 => check_float
  end.

(** lines 64-88: [while not o_k], entered with an [n_v] of the type [dt];
    one unit of fuel per iteration *)
Fixpoint shrink_loop (dt : dtype) (fuel : nat) (shape : Z * Z * Z)
         (box_bound : bbox) (n_v : Z * Z * Z)
  : result (dtype * (Z * Z * Z)) :=
  match fuel with
  | O => Err OutOfFuel
  | S fuel' =>
      if check_as dt shape box_bound n_v =? 6 then Ok (dt, n_v)
      else
        let n_v' := halve n_v in
        if sum3 n_v' =? 0 then Ok (float64, (0, 0, 0))
        else shrink_loop float64 fuel' shape box_bound n_v'
  end.


(** lines 93-98 with an [int64] margin, that of an exit in the first
    iteration: the six checks have passed on these very differences and
    sums, so none of them overflows *)
Definition expand (box_bound : bbox) (n_v : Z * Z * Z) : bbox :=
  let '(n0, n1, n2) := n_v in
  mk_bbox (b00 box_bound - n0) (b01 box_bound + n0)
          (b10 box_bound - n1) (b11 box_bound + n1)
          (b20 box_bound - n2) (b21 box_bound + n2).

(** [box_bound[i, j] -= n] and [box_bound[i, j] += n] with a [float64]
    [n]: the result is computed in [float64] and stored as an [int64].
    The loop is left with a [float64] margin that is 0 or has passed the
    six checks, hence is at most the lower bound of the box, an index
    below [2^52]; so the result is exact unless [n <= -2^52]. *)
Definition sub_float (i n : Z) : Z :=
  if n <=? - 2 ^ 52
  then F64.astype_int (F64.sub (F64.of_int i) (F64.of_int n))
  else i - n.

Definition add_float (i n : Z) : Z :=
  if n <=? - 2 ^ 52
  then F64.astype_int (F64.add (F64.of_int i) (F64.of_int n))
  else i + n.

(** lines 93-98 with a [float64] margin *)
Definition expand_float (box_bound : bbox) (n_v : Z * Z * Z) : bbox :=
  let '(n0, n1, n2) := n_v in
  mk_bbox (sub_float (b00 box_bound) n0) (add_float (b01 box_bound) n0)
          (sub_float (b10 box_bound) n1) (add_float (b11 box_bound) n1)
          (sub_float (b20 box_bound) n2) (add_float (b21 box_bound) n2).

Definition expand_as (dt : dtype) : bbox -> Z * Z * Z -> bbox :=
  match dt with
  | int64 => expand
  | float64 => expand_float
  end.

(** lines 50-100: the box that the arrays are cropped to *)
Definition final_box {A} (fuel : nat) (vol : array3 A) (roi : array3 bool)
           (box_string : string) : result bbox :=
  let comp := String.eqb box_string "box" in
  box_bound <- compute_bounding_box roi ;;
  n_v <- (if negb comp then
            n_v <- requested_margin box_bound box_string ;;
            shrink_loop int64 fuel (shape3 vol) box_bound n_v
          else Ok (float64, (0, 0, 0))) ;;
  Ok (expand_as (fst n_v) box_bound (snd n_v)).

(** the imports of [compute_box] from [utils/imref.py], which is not part
    of the sources: the function [intrinsicToWorld] and the lower world
    limit of a fresh [imref3d] *)
Record imref_module : Type := mk_imref_module {
  to_world : imref3d -> Q -> Q -> Q -> Q * Q * Q;
  fresh_min : Q
}.

(** lines 109-132: the reference of the cropped arrays *)
Definition cropped_ref (im : imref_module) (spatial_ref : imref3d)
           (box_bound : bbox) : imref3d :=
  let res0 := PixelExtentInWorldX spatial_ref in
  let res1 := PixelExtentInWorldY spatial_ref in
  let res2 := PixelExtentInWorldZ spatial_ref in
  let '(x_limit, y_limit, z_limit) :=
    to_world im spatial_ref (inject_Z (b00 box_bound))
             (inject_Z (b10 box_bound)) (inject_Z (b20 box_bound)) in
  let new_spatial_ref :=
    imref3d_init (fresh_min im) (size_box box_bound) res0 res1 res2 in
  let new_spatial_ref :=
    with_XWorldLimits
      (limits_minus (XWorldLimits new_spatial_ref)
         (fst (XWorldLimits new_spatial_ref) - (x_limit - res0 / 2))%Q)
      new_spatial_ref in
  let new_spatial_ref :=
    with_YWorldLimits
      (limits_minus (YWorldLimits new_spatial_ref)
         (fst (YWorldLimits new_spatial_ref) - (y_limit - res1 / 2))%Q)
      new_spatial_ref in
  with_ZWorldLimits
    (limits_minus (ZWorldLimits new_spatial_ref)
       (fst (ZWorldLimits new_spatial_ref) - (z_limit - res2 / 2))%Q)
    new_spatial_ref.

Definition compute_box {A} (im : imref_module) (fuel : nat) (vol : array3 A)
           (roi : array3 bool) (spatial_ref : imref3d) (box_string : string)
  : result (array3 A * array3 bool * imref3d) :=
  if PyStr.contains "box" box_string then
    box_bound <- final_box fuel vol roi box_string ;;
    Ok (crop box_bound vol, crop box_bound roi,
        cropped_ref im spatial_ref box_bound)
  else if PyStr.contains "full" box_string then
    Ok (vol, roi, spatial_ref)
  else
    Err UnboundLocalError.

(* ================================================================== *)
(** ** Mode ([utils/mode.py], not part of the sources) *)

(** number of entries of [l] equal to [x] *)
Definition occurrences (x : Q) (l : list Q) : nat :=
  List.length (filter (Qeq_bool x) l).

(** [x] is chosen over [y]: more frequent, or as frequent and smaller *)
Definition preferred (l : list Q) (x y : Q) : bool :=
  (occurrences y l <? occurrences x l)%nat
  || ((occurrences x l =? occurrences y l)%nat && negb (Qle_bool y x)).

(** Modelled from the spec: [mode(x)] of [utils/mode.py], the most frequent
    value of a finite sequence, the smallest one among the most frequent;
    an empty sequence is an error. *)
Definition mode (l : list Q) : result Q :=
  match l with
  | [] => Err EmptySequence
  | x :: t =>
      Ok (fold_left (fun best y => if preferred l y best then y else best) t x)
  end.

(* ================================================================== *)
(** ** Point in polygon ([utils/inpolygon.py], not part of the sources) *)

Definition zip_with {A B C} (f : A -> B -> C) (l : list A) (l' : list B)
  : list C :=
  map (fun p => f (fst p) (snd p)) (combine l l').

Definition Qlt_bool (x y : Q) : bool := negb (Qle_bool y x).

Definition vertex_eqb (p q : Q * Q) : bool :=
  Qeq_bool (fst p) (fst q) && Qeq_bool (snd p) (snd q).

Fixpoint distinct_vertices (vs : list (Q * Q)) : list (Q * Q) :=
  match vs with
  | [] => []
  | v :: t =>
      if existsb (vertex_eqb v) t then distinct_vertices t
      else v :: distinct_vertices t
  end.

(** the edges of the closed polygon: the last vertex connects to the first *)
Definition edges (vs : list (Q * Q)) : list ((Q * Q) * (Q * Q)) :=
  match vs with
  | [] => []
  | v0 :: t => combine vs (t ++ [v0])
  end.

(** the query point lies on the edge *)
Definition on_edge (x y : Q) (e : (Q * Q) * (Q * Q)) : bool :=
  let '((x1, y1), (x2, y2)) := e in
  Qeq_bool ((x2 - x1) * (y - y1)) ((y2 - y1) * (x - x1))
  && Qle_bool ((x - x1) * (x - x2)) 0
  && Qle_bool ((y - y1) * (y - y2)) 0.

(** the ray from the query point towards +X crosses the edge *)
Definition crosses (x y : Q) (e : (Q * Q) * (Q * Q)) : bool :=
  let '((x1, y1), (x2, y2)) := e in
  xorb (Qlt_bool y y1) (Qlt_bool y y2)
  && Qlt_bool x (x1 + (y - y1) * (x2 - x1) / (y2 - y1)).

Definition point_in_polygon (vs : list (Q * Q)) (x y : Q) : bool :=
  if (List.length (distinct_vertices vs) <? 3)%nat then false
  else existsb (on_edge x y) (edges vs)
       || Nat.odd (List.length (filter (crosses x y) (edges vs))).

(** Modelled from the spec: [inpolygon(x_q, y_q, x_v, y_v)] of
    [utils/inpolygon.py], a boolean grid, true where the query point is
    inside or on the boundary of the closed polygon (even-odd rule); a
    polygon with fewer than 3 distinct vertices gives an all-false grid.
    The spec does not say how the grid is laid out; it is taken to be laid
    out as the query grids are, and is only relied on for images whose
    first two extents agree, where [roi_mask[:, :, s]] has that shape. *)
Definition inpolygon (x_q y_q : array2 Q) (x_v y_v : list Q) : array2 bool :=
  zip_with (zip_with (point_in_polygon (combine x_v y_v))) x_q y_q.

(* ================================================================== *)
(** ** [get_polygon_mask]  ([processing/get_polygon_mask.py]) *)

(** a row of [roi_xyz]: world coordinates and the closed-contour number
    (column 3, an integer-valued entry of the array) *)
Record contour_point : Type := mk_contour_point {
  p_x : Q;
  p_y : Q;
  p_z : Q;
  p_contour : Z
}.

(** [np.zeros(s_z)] *)
Definition np_zeros (s_z : Z * Z * Z) : result (array3 bool) :=
  let '(n0, n1, n2) := s_z in
  if (n0 <? 0) || (n1 <? 0) || (n2 <? 0) then Err NegativeDimension
  else Ok (repeat (repeat (repeat false (Z.to_nat n2)) (Z.to_nat n1))
                  (Z.to_nat n0)).

(** [np.arange(n)] *)
Definition arange (n : Z) : list Q :=
  map (fun i => inject_Z (Z.of_nat i)) (seq 0 (Z.to_nat n)).

(** [np.meshgrid(xs, ys)]: two grids of shape [(len ys, len xs)] *)
Definition meshgrid (xs ys : list Q) : array2 Q * array2 Q :=
  (map (fun _ => xs) ys, map (fun y => map (fun _ => y) xs) ys).

Fixpoint insert_unique (x : Z) (l : list Z) : list Z :=
  match l with
  | [] => [x]
  | y :: t =>
      if x <? y then x :: l
      else if x =? y then l
      else y :: insert_unique x t
  end.

(** [np.unique]: the distinct values in increasing order *)
Definition np_unique (l : list Z) : list Z := fold_right insert_unique [] l.

(** [xs[ind]] for a boolean index [ind] *)
Definition select {A} (ind : list bool) (xs : list A) : list A :=
  map snd (filter fst (combine ind xs)).

(** [points[:, c]], one row *)
Definition column (c : nat) (p : Q * Q * Q) : Q :=
  let '(x, y, z) := p in
  match c with
  | O => x
  | S O => y
  | _ => z
  end.

(** lines 38-52 *)
Definition axes (orientation : string) : result (nat * nat * nat) :=
  if String.eqb orientation "Axial" then Ok (0, 1, 2)%nat
  else if String.eqb orientation "Sagittal" then Ok (1, 2, 0)%nat
  else if String.eqb orientation "Coronal" then Ok (0, 2, 1)%nat
  else Err InvalidOrientation.

(** an integer index into an axis of length [n]: a negative index counts
    from the end *)
Definition resolve_index (n s : Z) : result nat :=
  if (0 <=? s) && (s <? n) then Ok (Z.to_nat s)
  else if (- n <=? s) && (s <? 0) then Ok (Z.to_nat (s + n))
  else Err IndexError.

Fixpoint set_nth {A} (n : nat) (x : A) (l : list A) : list A :=
  match l, n with
  | [], _ => []
  | _ :: t, O => x :: t
  | y :: t, S n' => y :: set_nth n' x t
  end.

Definition shape2 {A} (p : array2 A) : Z * Z :=
  (Zlen p, Zlen (hd [] p)).

(** lines 67-68:
    [roi_mask[:, :, s] = np.logical_or(roi_mask[:, :, s], inpoly)].
    The operands have shapes [(n0, n1)] and [(n1, n0)]; NumPy combines and
    stores them only when the two shapes are equal. *)
Definition or_into_slice (s_z : Z * Z * Z) (roi_mask : array3 bool)
           (select_slice : Z) (inpoly : array2 bool) : result (array3 bool) :=
  let '(n0, n1, n2) := s_z in
  s <- resolve_index n2 select_slice ;;
  if (fst (shape2 inpoly) =? n0) && (snd (shape2 inpoly) =? n1) then
    Ok (zip_with
          (zip_with (fun line b => set_nth s (nth s line false || b) line))
          roi_mask inpoly)
  else Err BroadcastError.

(** a [for] loop whose body can raise *)
Fixpoint for_each {S X} (body : S -> X -> result S) (xs : list X) (s : S)
  : result S :=
  match xs with
  | [] => Ok s
  | x :: xs' => s' <- body s x ;; for_each body xs' s'
  end.

(** line 61: [roi_xyz[:, 3] == c_c] *)
Definition contour_rows (roi_xyz : list contour_point) (c_c : Z) : list bool :=
  map (fun r => p_contour r =? c_c) roi_xyz.

(** line 65: [mode(K[ind]).astype(int)] *)
Definition select_slice (K : list Q) (ind : list bool) : result Z :=
  m <- mode (select ind K) ;;
  Ok (Np.astype_int m).

(** lines 54-68, the body of the loop over the closed contours *)
Definition rasterize_contour (roi_xyz : list contour_point)
           (points : list (Q * Q * Q)) (K : list Q) (a b : nat)
           (s_z : Z * Z * Z) (x_q y_q : array2 Q)
           (roi_mask : array3 bool) (c_c : Z) : result (array3 bool) :=
  let ind := contour_rows roi_xyz c_c in
  s <- select_slice K ind ;;
  let inpoly := inpolygon x_q y_q (select ind (map (column a) points))
                          (select ind (map (column b) points)) in
  or_into_slice s_z roi_mask s inpoly.

Definition get_polygon_mask (roi_xyz : list contour_point)
           (spatial_ref : imref3d) (orientation : string)
  : result (array3 bool) :=
  let s_z := ImageSize spatial_ref in
  roi_mask <- np_zeros s_z ;;
  let points :=
    map (fun r => worldToIntrinsic spatial_ref (p_x r) (p_y r) (p_z r))
        roi_xyz in
  ' (a, b, c) <- axes orientation ;;
  let K := map (fun p => inject_Z (Np.round (column c p))) points in
  let closed_contours := np_unique (map p_contour roi_xyz) in
  let '(x_q, y_q) :=
    meshgrid (arange (fst (fst s_z))) (arange (snd (fst s_z))) in
  for_each (rasterize_contour roi_xyz points K a b s_z x_q y_q)
           closed_contours roi_mask.

(** [roi_mask[i, j, k]] for indices inside the array *)
Definition voxel (m : array3 bool) (i j k : nat) : bool :=
  nth k (nth j (nth i m []) []) false.


(* ================================================================== *)
(** * Vocabulary of the statements *)

(** ** Boxes and margins *)

(** the tight box of a mask with a set voxel, inside a volume of that shape *)
Definition tight_within (shape : Z * Z * Z) (b : bbox) : Prop :=
  let '(sh0, sh1, sh2) := shape in
  (0 <= b00 b <= b01 b /\ b01 b < sh0) /\
  (0 <= b10 b <= b11 b /\ b11 b < sh1) /\
  (0 <= b20 b <= b21 b /\ b21 b < sh2).

(** every bound of the box is a valid index, [0 <= bound <= shape - 1] *)
Definition box_in_range (shape : Z * Z * Z) (b : bbox) : Prop :=
  let '(sh0, sh1, sh2) := shape in
  (0 <= b00 b <= sh0 - 1 /\ 0 <= b01 b <= sh0 - 1) /\
  (0 <= b10 b <= sh1 - 1 /\ 0 <= b11 b <= sh1 - 1) /\
  (0 <= b20 b <= sh2 - 1 /\ 0 <= b21 b <= sh2 - 1).

(** the margins that do not turn the box inside out: on every axis the
    margin is at least [-(size - 1)]; every margin [N >= 0] is one *)
Definition margin_admissible (b : bbox) (n_v : Z * Z * Z) : Prop :=
  let '(n0, n1, n2) := n_v in
  b00 b - b01 b <= n0 /\ b10 b - b11 b <= n1 /\ b20 b - b21 b <= n2.

Definition margin_nonneg (n_v : Z * Z * Z) : Prop :=
  let '(n0, n1, n2) := n_v in 0 <= n0 /\ 0 <= n1 /\ 0 <= n2.

(** distance of a margin entry to the fixpoint of floor-halving
    ([0] from above, [-1] from below) *)
Definition entry_measure (n : Z) : Z := if n <? 0 then - n - 1 else n.

Definition margin_measure (n_v : Z * Z * Z) : Z :=
  let '(n0, n1, n2) := n_v in
  entry_measure n0 + entry_measure n1 + entry_measure n2.

(** the outcome of the loop entered with a margin of the type [dt]: the
    first iterate of the halving that passes the six checks, with the type
    it then has, or the zero margin once the halved entries sum to 0 *)
Inductive loop_exit (shape : Z * Z * Z) (b : bbox)
  : dtype -> Z * Z * Z -> dtype -> Z * Z * Z -> Prop :=
| exit_checked dt n_v :
    check_as dt shape b n_v = 6 -> loop_exit shape b dt n_v dt n_v
| exit_fallback dt n_v :
    check_as dt shape b n_v <> 6 -> sum3 (halve n_v) = 0 ->
    loop_exit shape b dt n_v float64 (0, 0, 0)
| exit_retry dt n_v dt' n :
    check_as dt shape b n_v <> 6 -> sum3 (halve n_v) <> 0 ->
    loop_exit shape b float64 (halve n_v) dt' n ->
    loop_exit shape b dt n_v dt' n.

(** the extents of an array: every index is a number that [float64]
    holds exactly *)
Definition array_sized (shape : Z * Z * Z) : Prop :=
  let '(sh0, sh1, sh2) := shape in
  sh0 <= 2 ^ 52 /\ sh1 <= 2 ^ 52 /\ sh2 <= 2 ^ 52.


(** ** Sample inputs *)

(** [utils/imref.py] as the spec describes it, fresh references starting
    at 0 *)
Definition spec_imref : imref_module := mk_imref_module intrinsicToWorld 0.

(** a 3 x 3 x 4 mask with the voxels [1, 1, 1] and [1, 1, 2] set *)
Definition sample_roi : array3 bool :=
  [[[false; false; false; false]; [false; false; false; false];
    [false; false; false; false]];
   [[false; false; false; false]; [false; true; true; false];
    [false; false; false; false]];
   [[false; false; false; false]; [false; false; false; false];
    [false; false; false; false]]].

(** a volume of the same extent, each voxel holding its flat index *)
Definition sample_vol : array3 Z :=
  [[[0; 1; 2; 3]; [4; 5; 6; 7]; [8; 9; 10; 11]];
   [[12; 13; 14; 15]; [16; 17; 18; 19]; [20; 21; 22; 23]];
   [[24; 25; 26; 27]; [28; 29; 30; 31]; [32; 33; 34; 35]]].

(** spacing 1 x 1 x 2, lower world limits -10, 20 and 0 *)
Definition sample_ref : imref3d :=
  mk_imref3d (3, 3, 4) 1 1 2 (-10, -7)%Q (20, 23)%Q (0, 8)%Q.

Definition sample_box : bbox := mk_bbox 1 1 1 1 1 2.

(** a 2 x 2 x 2 volume, smaller than [sample_roi] on every axis *)
Definition small_vol : array3 Z :=
  [[[0; 1]; [2; 3]]; [[4; 5]; [6; 7]]].



(** ** World coordinates *)

(** equality of two world points, as rationals *)
Definition world_eq (p q : Q * Q * Q) : Prop :=
  (fst (fst p) == fst (fst q) /\ snd (fst p) == snd (fst q) /\ snd p == snd q)%Q.

(** the world limits span [imageSize * pixelExtent] on every axis *)
Definition limits_consistent (R : imref3d) : Prop :=
  let '(n0, n1, n2) := ImageSize R in
  (snd (XWorldLimits R) - fst (XWorldLimits R)
   == inject_Z n0 * PixelExtentInWorldX R /\
   snd (YWorldLimits R) - fst (YWorldLimits R)
   == inject_Z n1 * PixelExtentInWorldY R /\
   snd (ZWorldLimits R) - fst (ZWorldLimits R)
   == inject_Z n2 * PixelExtentInWorldZ R)%Q.

(** ** Numbers *)


(** ** Characters of a number *)

(** the string contains the letter b *)
Fixpoint has_b (s : string) : bool :=
  match s with
  | EmptyString => false
  | String c s' => Ascii.eqb c "b" || has_b s'
  end.

(** ** Masks and contours *)

(** a rectangular 2-D array of [r] rows and [c] columns *)
Definition rect2 {A} (p : array2 A) (r c : nat) : Prop :=
  List.length p = r /\
  forall i, (i < r)%nat -> List.length (nth i p []) = c.

(** a rectangular 3-D array of shape [(n0, n1, n2)] *)
Definition rect3 {A} (m : array3 A) (n0 n1 n2 : nat) : Prop :=
  List.length m = n0 /\
  forall i, (i < n0)%nat -> rect2 (nth i m []) n1 n2.

(** [points] of line 36 *)
Definition intrinsic_points (roi_xyz : list contour_point)
           (spatial_ref : imref3d) : list (Q * Q * Q) :=
  map (fun r => worldToIntrinsic spatial_ref (p_x r) (p_y r) (p_z r)) roi_xyz.

(** [K] of line 54 for the slice axis [c] *)
Definition rounded_slices (roi_xyz : list contour_point)
           (spatial_ref : imref3d) (c : nat) : list Q :=
  map (fun p => inject_Z (Np.round (column c p)))
      (intrinsic_points roi_xyz spatial_ref).

(** [select_slice] of line 65 for the contour [c_c] *)
Definition contour_slice (roi_xyz : list contour_point)
           (spatial_ref : imref3d) (c : nat) (c_c : Z) : result Z :=
  select_slice (rounded_slices roi_xyz spatial_ref c)
               (contour_rows roi_xyz c_c).

(** [inpoly] of line 66 for the contour [c_c] and the in-plane axes
    [a], [b] *)
Definition contour_plane (roi_xyz : list contour_point)
           (spatial_ref : imref3d) (a b : nat) (c_c : Z) : array2 bool :=
  let s_z := ImageSize spatial_ref in
  let points := intrinsic_points roi_xyz spatial_ref in
  let ind := contour_rows roi_xyz c_c in
  let '(x_q, y_q) :=
    meshgrid (arange (fst (fst s_z))) (arange (snd (fst s_z))) in
  inpolygon x_q y_q (select ind (map (column a) points))
            (select ind (map (column b) points)).

(** the position on the third axis that the contour [c_c] is written to *)
Definition contour_slot (roi_xyz : list contour_point)
           (spatial_ref : imref3d) (c : nat) (c_c : Z) : result nat :=
  s <- contour_slice roi_xyz spatial_ref c c_c ;;
  resolve_index (snd (ImageSize spatial_ref)) s.

(** the contour [c_c] sets the voxel [(i, j, k)] *)
Definition contour_sets (roi_xyz : list contour_point)
           (spatial_ref : imref3d) (a b c : nat) (i j k : nat) (c_c : Z)
  : bool :=
  match contour_slot roi_xyz spatial_ref c c_c with
  | Ok s => (s =? k)%nat && nth j (nth i (contour_plane roi_xyz spatial_ref a b c_c) []) false
  | Err _ => false
  end.

(** the body of the loop of line 60 with the variables of lines 28-58 *)
Definition contour_body (roi_xyz : list contour_point)
           (spatial_ref : imref3d) (a b c : nat)
  : array3 bool -> Z -> result (array3 bool) :=
  let s_z := ImageSize spatial_ref in
  rasterize_contour roi_xyz (intrinsic_points roi_xyz spatial_ref)
    (rounded_slices roi_xyz spatial_ref c) a b s_z
    (fst (meshgrid (arange (fst (fst s_z))) (arange (snd (fst s_z)))))
    (snd (meshgrid (arange (fst (fst s_z))) (arange (snd (fst s_z))))).

(** the closed contours of the point set *)
Definition closed_contours (roi_xyz : list contour_point) : list Z :=
  np_unique (map p_contour roi_xyz).

(** [a] is at least as good a mode of [l] as [b]: more frequent, or as
    frequent and not larger *)
Definition mode_order (l : list Q) (a b : Q) : Prop :=
  (occurrences b l <= occurrences a l)%nat /\
  (occurrences a l = occurrences b l -> (a <= b)%Q).

(** a cube of side 3 with unit spacing and lower world limits 0 *)
Definition cube_ref : imref3d :=
  mk_imref3d (3, 3, 3) 1 1 1 (0, 3)%Q (0, 3)%Q (0, 3)%Q.

(** a square contour in the plane of world [x = 1/2], that is of intrinsic
    X = 1; its intrinsic (Y, Z) vertices are (0,0), (1,0), (1,1), (0,1) *)
Definition sagittal_square : list contour_point :=
  [mk_contour_point (1 # 2) (- (1 # 2)) (- (1 # 2)) 0;
   mk_contour_point (1 # 2) (1 # 2) (- (1 # 2)) 0;
   mk_contour_point (1 # 2) (1 # 2) (1 # 2) 0;
   mk_contour_point (1 # 2) (- (1 # 2)) (1 # 2) 0].

(** a rectangle in the plane of world [z = -3/2], that is of intrinsic
    Z = -1; its intrinsic (X, Y) vertices are (0,0), (2,0), (2,1), (0,1) *)
Definition below_volume : list contour_point :=
  [mk_contour_point (- (1 # 2)) (- (1 # 2)) (- (3 # 2)) 7;
   mk_contour_point (3 # 2) (- (1 # 2)) (- (3 # 2)) 7;
   mk_contour_point (3 # 2) (1 # 2) (- (3 # 2)) 7;
   mk_contour_point (- (1 # 2)) (1 # 2) (- (3 # 2)) 7].

(** a contour whose points straddle two slices: the intrinsic Z of its
    points are 0.6, 0.7, 0.8, 0.4 and 0.4; its intrinsic (X, Y) vertices
    are (0,0), (2,0), (2,2), (0,2), (0,1) *)
Definition straddling : list contour_point :=
  [mk_contour_point (- (1 # 2)) (- (1 # 2)) (1 # 10) 3;
   mk_contour_point (3 # 2) (- (1 # 2)) (2 # 10) 3;
   mk_contour_point (3 # 2) (3 # 2) (3 # 10) 3;
   mk_contour_point (- (1 # 2)) (3 # 2) (- (1 # 10)) 3;
   mk_contour_point (- (1 # 2)) (1 # 2) (- (1 # 10)) 3].

(* ================================================================== *)
(** * Further vocabulary for [compute_box] and [get_polygon_mask] *)



(** a margin that shrinks the box on every axis *)
Definition margin_negative (n_v : Z * Z * Z) : Prop :=
  let '(n0, n1, n2) := n_v in n0 < 0 /\ n1 < 0 /\ n2 < 0.

(** [check2], [check3] or [check4] of lines 76-78 fails: on some axis the
    upper border of the box moved by the margin is beyond the volume *)
Definition upper_check_fails (shape : Z * Z * Z) (b : bbox) (n_v : Z * Z * Z)
  : Prop :=
  let '(sh0, sh1, sh2) := shape in
  let '(n0, n1, n2) := n_v in
  sh0 < b01 b + n0 + 1 \/ sh1 < b11 b + n1 + 1 \/ sh2 < b21 b + n2 + 1.

(** [v[i, j, k]] for indices inside the array; [d] stands for an index
    outside it *)
Definition item3 {A} (d : A) (v : array3 A) (i j k : nat) : A :=
  nth k (nth j (nth i v []) []) d.

(** the box has a voxel on every axis and lies inside the shape *)
Definition box_inside (shape : Z * Z * Z) (b : bbox) : Prop :=
  let '(sh0, sh1, sh2) := shape in
  (0 <= b00 b <= b01 b /\ b01 b < sh0) /\
  (0 <= b10 b <= b11 b /\ b11 b < sh1) /\
  (0 <= b20 b <= b21 b /\ b21 b < sh2).

(** a 1 x 1 x 1 volume *)
Definition tiny_vol : array3 Z := [[[0]]].

(* ================================================================== *)
(** * [process_dicom_scan_files]
      ([processing/process_dicom_scan_files.py])

    The function reads its files through [pydicom] and hands the volume
    to other modules; embedded here are the computations it does itself
    between those calls: the orientation of the scan (lines 95-109), the
    spatial reference of the volume (lines 131-148) and the point array of
    one ROI (lines 210-236). *)

(** the exceptions of these computations *)
Inductive py_exception : Type :=
| ListIndexError      (* IndexError: list index out of range          *)
| EmptyArgument       (* ValueError: max() arg is an empty sequence   *)
| NotInList           (* ValueError: x is not in list                 *)
| CannotReshape       (* ValueError: cannot reshape array of size ... *)
| CannotConcatenate   (* ValueError raised by np.concatenate          *)
| HasNoLen.           (* TypeError: object of type ... has no len()   *)

Inductive outcome (A : Type) : Type :=
| Returns (a : A)
| Raises (e : py_exception).
Arguments Returns {A} a.
Arguments Raises {A} e.

Definition and_then {A B} (r : outcome A) (k : A -> outcome B) : outcome B :=
  match r with
  | Returns a => k a
  | Raises e => Raises e
  end.

Notation "x <~ r ;; k" := (and_then r (fun x => k))
  (at level 61, r at next level, right associativity).
Notation "' p <~ r ;; k" := (and_then r (fun p => k))
  (at level 61, p pattern, r at next level, right associativity).

(** ** Orientation of the scan *)

(** [l[i]] on a Python list: a negative index counts from the end *)
Definition list_get {A} (l : list A) (i : Z) : outcome A :=
  let n := Zlen l in
  let i' := if i <? 0 then i + n else i in
  if (0 <=? i') && (i' <? n) then
    match nth_error l (Z.to_nat i') with
    | Some x => Returns x
    | None => Raises ListIndexError
    end
  else Raises ListIndexError.

(** [max(l)]: the first of the largest entries *)
Definition py_max (l : list Q) : outcome Q :=
  match l with
  | [] => Raises EmptyArgument
  | x :: t => Returns (fold_left (fun m y => if Qlt_bool m y then y else m) t x)
  end.

(** [l.index(x)]: the first position of an entry equal to [x] *)
Fixpoint py_index (x : Q) (l : list Q) : outcome Z :=
  match l with
  | [] => Raises NotInList
  | y :: t =>
      if Qeq_bool y x then Returns 0
      else i <~ py_index x t ;; Returns (i + 1)
  end.

(** lines 95-109; [positions] are the [ImagePositionPatient] of the
    slices [dicom_hi], in the order of [pathImages] *)
Definition scan_orientation (positions : list (Q * Q * Q)) : outcome string :=
  let n_slices := Zlen positions in
  let mid := Np.round (inject_Z n_slices / 2) in
  next <~ list_get positions (mid + 1) ;;
  here <~ list_get positions mid ;;
  let dist := [Qabs (column 0 next - column 0 here);
               Qabs (column 1 next - column 1 here);
               Qabs (column 2 next - column 2 here)] in
  largest <~ py_max dist ;;
  index <~ py_index largest dist ;;
  Returns (if index =? 0 then "Sagittal"%string
           else if index =? 1 then "Coronal"%string
           else "Axial"%string).

(** ** Spatial reference of the volume *)

(** a 3 x 3 matrix and the 4 x 4 matrix [ijk_to_xyz], by rows *)
Definition mat3 : Type := (Q * Q * Q) * (Q * Q * Q) * (Q * Q * Q).
Definition mat4 : Type :=
  (Q * Q * Q * Q) * (Q * Q * Q * Q) * (Q * Q * Q * Q) * (Q * Q * Q * Q).

(** [ijk_to_xyz[:3, 3]] *)
Definition last_column (m : mat4) : Q * Q * Q :=
  let '(r0, r1, r2, _) := m in
  (snd r0, snd r1, snd r2).

(** [m @ v] *)
Definition matvec (m : mat3) (v : Q * Q * Q) : Q * Q * Q :=
  let '(r0, r1, r2) := m in
  let dot := fun r : Q * Q * Q =>
    (column 0 r * column 0 v + column 1 r * column 1 v
     + column 2 r * column 2 v)%Q in
  (dot r0, dot r1, dot r2).

(** lines 131-148; [fresh_min] is the lower world limit of a fresh
    [imref3d] *)
Definition scan_spatial_ref (fresh_min : Q) (size_image : Z * Z * Z)
           (ijk_to_xyz : mat4) (rotation_m scaling_m : mat3) : imref3d :=
  let '(s0, s1, s2) := scaling_m in
  let pixel_x := column 0 s0 in
  let pixel_y := column 1 s1 in
  let slice_s := column 2 s2 in
  let min_grid := matvec rotation_m (last_column ijk_to_xyz) in
  let min_x_grid := column 0 min_grid in
  let min_y_grid := column 1 min_grid in
  let min_z_grid := column 2 min_grid in
  let spatial_ref := imref3d_init fresh_min size_image pixel_x pixel_y slice_s in
  let spatial_ref :=
    with_XWorldLimits
      (limits_minus (XWorldLimits spatial_ref)
         (fst (XWorldLimits spatial_ref) - (min_x_grid - pixel_x / 2))%Q)
      spatial_ref in
  let spatial_ref :=
    with_YWorldLimits
      (limits_minus (YWorldLimits spatial_ref)
         (fst (YWorldLimits spatial_ref) - (min_y_grid - pixel_y / 2))%Q)
      spatial_ref in
  with_ZWorldLimits
    (limits_minus (ZWorldLimits spatial_ref)
       (fst (ZWorldLimits spatial_ref) - (min_z_grid - slice_s / 2))%Q)
    spatial_ref.

(** ** Point array of an ROI *)

(** the rows of [np.reshape(pts, (n, 3))] *)
Fixpoint rows_of_three (pts : list Q) : list (Q * Q * Q) :=
  match pts with
  | x :: y :: z :: t => (x, y, z) :: rows_of_three t
  | _ => []
  end.

(** [np.reshape(np.transpose(pts_temp), (n_points, 3))] on the flat list
    [pts_temp] *)
Definition reshape_points (pts_temp : list Q) (n_points : Z)
  : outcome (list (Q * Q * Q)) :=
  if n_points * 3 =? Zlen pts_temp then Returns (rows_of_three pts_temp)
  else Raises CannotReshape.

(** the value of a [ContourData] element as [pydicom] hands it out:
    [None] for an element without a value, the bare number for a single
    value, and a sequence for two values or more *)
Inductive contour_data : Type :=
| NoValue
| SingleValue (x : Q)
| MultiValue (x y : Q) (rest : list Q).

(** the numbers of the element *)
Definition values (pts_temp : contour_data) : list Q :=
  match pts_temp with
  | NoValue => []
  | SingleValue x => [x]
  | MultiValue x y rest => x :: y :: rest
  end.

(** [len(pts_temp)]: neither [None] nor a number has a length *)
Definition py_len (pts_temp : contour_data) : outcome Z :=
  match pts_temp with
  | MultiValue _ _ _ => Returns (Zlen (values pts_temp))
  | _ => Raises HasNoLen
  end.

(** lines 213-229, one turn of the loop over the closed contours; [points]
    is [None] while it is still the empty Python list of line 191 *)
Definition add_contour (points : option (list (Q * Q * Q)))
           (ind_closed_contour : list Z) (s : Z) (pts_temp : contour_data)
  : outcome (option (list (Q * Q * Q)) * list Z) :=
  len <~ py_len pts_temp ;;
  let n_points := len / 3 in
  if 0 <? len then
    let ind_closed_contour :=
      ind_closed_contour ++ repeat s (Z.to_nat n_points) in
    rows <~ reshape_points (values pts_temp) n_points ;;
    match points with
    | None => Returns (Some rows, ind_closed_contour)
    | Some p => Returns (Some (p ++ rows), ind_closed_contour)
    end
  else Returns (points, ind_closed_contour).

(** lines 212-229: [for s in range(0, n_closed_contour)], from the turn
    [s] on *)
Fixpoint add_contours (s : Z) (contours : list contour_data)
         (points : option (list (Q * Q * Q))) (ind_closed_contour : list Z)
  : outcome (option (list (Q * Q * Q)) * list Z) :=
  match contours with
  | [] => Returns (points, ind_closed_contour)
  | pts_temp :: rest =>
      ' (points', ind') <~ add_contour points ind_closed_contour s pts_temp ;;
      add_contours (s + 1) rest points' ind'
  end.

(** lines 232-235: [np.concatenate((points, ids), axis=1)] with the
    [(len, 1)] column of contour numbers *)
Definition with_contour_column (points : option (list (Q * Q * Q)))
           (ind_closed_contour : list Z) : outcome (list contour_point) :=
  match points with
  | None => Raises CannotConcatenate
  | Some p =>
      if (List.length p =? List.length ind_closed_contour)%nat then
        Returns (zip_with (fun row s =>
                             mk_contour_point (column 0 row) (column 1 row)
                                              (column 2 row) s)
                          p ind_closed_contour)
      else Raises CannotConcatenate
  end.

(** lines 210-236: the array stored as the indexes of the ROI;
    [contours] are the [ContourData] of its [ContourSequence].  An
    exception is caught on line 248, where [NaN] is stored instead. *)
Definition roi_point_array (contours : list contour_data)
  : outcome (list contour_point) :=
  ' (points, ind_closed_contour) <~ add_contours 0 contours None [] ;;
  with_contour_column points ind_closed_contour.

(** ** Vocabulary *)

(** the rows that the contour number [s] with the numbers [pts] stands
    for *)
Definition contour_block (s : Z) (pts : list Q) : list contour_point :=
  map (fun row => mk_contour_point (column 0 row) (column 1 row)
                                   (column 2 row) s)
      (rows_of_three pts).

(** the blocks of the contours numbered from [s] on *)
Fixpoint contour_blocks (s : Z) (contours : list contour_data)
  : list contour_point :=
  match contours with
  | [] => []
  | pts :: rest => contour_block s (values pts) ++ contour_blocks (s + 1) rest
  end.

(** the coordinates of the rows gathered so far, as the loop holds them:
    the Python list before the first contour, the array afterwards *)
Definition gathered_points (acc : list contour_point)
  : option (list (Q * Q * Q)) :=
  match acc with
  | [] => None
  | _ => Some (map (fun r => (p_x r, p_y r, p_z r)) acc)
  end.

(** the data is a sequence of whole points, three numbers each *)
Definition whole_points (pts_temp : contour_data) : Prop :=
  match pts_temp with
  | MultiValue _ _ _ => Zlen (values pts_temp) mod 3 = 0
  | _ => False
  end.

(** the exception that data other than whole points ends in: that of
    [len] on line 217, or that of the reshape on lines 222 and 227 *)
Definition fault_of (pts_temp : contour_data) : py_exception :=
  match pts_temp with
  | MultiValue _ _ _ => CannotReshape
  | _ => HasNoLen
  end.

(** the positions [0 .. n - 1] *)
Definition positions (n : nat) : list Z := map Z.of_nat (seq 0 n).

(** two contours of an ROI, of three points each *)
Definition sample_contours : list contour_data :=
  [MultiValue 0 0 [5; 1; 0; 5; 0; 1; 5]%Q;
   MultiValue 2 2 [6; 3; 2; 6; 2; 3; 6]%Q].

(** four slices stacked along z *)
Definition axial_positions : list (Q * Q * Q) :=
  [(0, 0, 0); (0, 0, 3); (0, 0, 6); (0, 0, 9)]%Q.

(** the distance between two slice positions along the patient axis
    [axis] *)
Definition step_along (axis : nat) (next here : Q * Q * Q) : Q :=
  Qabs (column axis next - column axis here).

(* ================================================================== *)
(** * Properties of [compute_box] *)

(** case analysis on the comparisons of integers in the goal and the
    hypotheses *)
Ltac zbool :=
  repeat match goal with
    | |- context [?a >? ?b] => destruct (Z.gtb_spec a b)
    | |- context [?a <=? ?b] => destruct (Z.leb_spec a b)
    | |- context [?a <? ?b] => destruct (Z.ltb_spec a b)
    | |- context [?a =? ?b] => destruct (Z.eqb_spec a b)
    | H : context [?a >? ?b] |- _ => destruct (Z.gtb_spec a b)
    | H : context [?a <=? ?b] |- _ => destruct (Z.leb_spec a b)
    | H : context [?a <? ?b] |- _ => destruct (Z.ltb_spec a b)
    | H : context [?a =? ?b] |- _ => destruct (Z.eqb_spec a b)
    end.

(** ** Substrings *)

(** [sub in s] holds exactly when [sub] occurs in [s] at some position *)
Lemma contains_true sub s :
  PyStr.contains sub s = true ->
  exists m, String.substring m (String.length sub) s = sub.
Proof.
  unfold PyStr.contains.
  destruct (String.index 0 sub s) as [m|] eqn:Hi; [|discriminate].
  intros _. exists m. now apply String.index_correct1 with (n := 0%nat).
Qed.

Lemma contains_false sub s :
  sub <> EmptyString ->
  PyStr.contains sub s = false ->
  forall m, String.substring m (String.length sub) s <> sub.
Proof.
  unfold PyStr.contains. intros Hne.
  destruct (String.index 0 sub s) as [m|] eqn:Hi; [discriminate|].
  intros _ m. apply String.index_correct3 with (n := 0%nat); trivial. lia.
Qed.

(** [s.find(sub)] is a position of [sub] with none before it *)
Lemma find_first sub s :
  0 <= PyStr.find sub s ->
  String.substring (Z.to_nat (PyStr.find sub s)) (String.length sub) s = sub /\
  forall p, (p < Z.to_nat (PyStr.find sub s))%nat ->
            String.substring p (String.length sub) s <> sub.
Proof.
  unfold PyStr.find.
  destruct (String.index 0 sub s) as [m|] eqn:Hi; [|lia].
  intros _. rewrite Nat2Z.id. split.
  - now apply String.index_correct1 with (n := 0%nat).
  - intros p Hp. apply String.index_correct2 with (n := 0%nat) (m := m);
      trivial. lia.
Qed.

(** ** The branches without a box *)

Section FullAndUnset.

Context {A : Type}.
Variables (im : imref_module) (fuel : nat).
Variables (vol : array3 A) (roi : array3 bool) (spatial_ref : imref3d).

(** C7.  With the crop specification "full", [compute_box] returns the
    volume, the mask and the spatial reference it was given, whatever
    they are. *)
Theorem compute_box_full_unchanged :
  compute_box im fuel vol roi spatial_ref "full" = Ok (vol, roi, spatial_ref).
Proof. reflexivity. Qed.

(** C9.  A [box_string] that contains neither "box" nor "full" takes
    neither branch: [new_spatial_ref] is unbound at the [return], so the
    call ends in [UnboundLocalError], not in a result and not in a parse
    error. *)
Theorem compute_box_unbound_spatial_ref :
  forall box_string : string,
    PyStr.contains "box" box_string = false ->
    PyStr.contains "full" box_string = false ->
    compute_box im fuel vol roi spatial_ref box_string
    = Err UnboundLocalError.
Proof.
  intros box_string Hbox Hfull.
  unfold compute_box.
  now rewrite Hbox, Hfull.
Qed.

End FullAndUnset.

Lemma compute_box_unbound_spatial_ref_witness :
  compute_box spec_imref 0 sample_vol sample_roi sample_ref "tight"
  = Err UnboundLocalError.
Proof.
  apply (compute_box_unbound_spatial_ref
           spec_imref 0%nat sample_vol sample_roi sample_ref "tight");
    reflexivity.
Defined.

(** ** [int64] arithmetic *)

Ltac i64 :=
  unfold I64.in_range, I64.min, I64.max in *;
  change (2 ^ 64) with 18446744073709551616 in *;
  change (2 ^ 63) with 9223372036854775808 in *;
  change (2 ^ 52) with 4503599627370496 in *.

Lemma wrap_in_range z : I64.min <= z <= I64.max -> I64.wrap z = z.
Proof. unfold I64.wrap. i64. intros H. rewrite Z.mod_small; lia. Qed.

Lemma wrap_range z : I64.min <= I64.wrap z <= I64.max.
Proof.
  unfold I64.wrap. i64.
  pose proof (Z.mod_pos_bound (z + 9223372036854775808) 18446744073709551616
                ltac:(lia)). lia.
Qed.

(** [sub_index], [add_index] and [extent] are the wrapped difference, sum
    and extent, for every index and bound that an [int64] holds *)
Lemma sub_index_wrap i n :
  0 <= i <= I64.max -> I64.min <= n <= I64.max ->
  I64.sub_index i n = I64.wrap (i - n).
Proof.
  intros Hi Hn. unfold I64.sub_index.
  destruct (Z.ltb_spec n 0); [reflexivity|].
  symmetry. apply wrap_in_range. i64. lia.
Qed.

Lemma add_index_wrap i n :
  0 <= i <= I64.max -> I64.min <= n <= I64.max ->
  I64.add_index i n = I64.wrap (i + n).
Proof.
  intros Hi Hn. unfold I64.add_index.
  destruct (Z.ltb_spec 0 n); [reflexivity|].
  symmetry. apply wrap_in_range. i64. lia.
Qed.

Lemma extent_wrap lo hi :
  I64.min <= lo <= I64.max -> I64.min <= hi <= I64.max ->
  hi - lo < I64.max ->
  I64.extent lo hi = I64.wrap (I64.wrap (hi - lo) + 1).
Proof.
  intros Hlo Hhi Hd. unfold I64.extent.
  assert (forall z, I64.wrap (I64.wrap z + 1) = I64.wrap (z + 1)) as Hw.
  { intros z. unfold I64.wrap. f_equal.
    replace ((z + 2 ^ 63) mod 2 ^ 64 - 2 ^ 63 + 1 + 2 ^ 63)
      with ((z + 2 ^ 63) mod 2 ^ 64 + 1) by lia.
    replace (z + 1 + 2 ^ 63) with (z + 2 ^ 63 + 1) by lia.
    now rewrite Z.add_mod_idemp_l by (i64; lia). }
  rewrite Hw. destruct (Z.ltb_spec hi lo); [reflexivity|].
  symmetry. apply wrap_in_range. i64. lia.
Qed.

Lemma extent_ordered lo hi : lo <= hi -> I64.extent lo hi = hi - lo + 1.
Proof.
  intros H. unfold I64.extent.
  destruct (Z.ltb_spec hi lo); [lia|reflexivity].
Qed.

(** ** The clamp/shrink loop *)

Lemma entry_measure_nonneg n : 0 <= entry_measure n.
Proof. unfold entry_measure; zbool; lia. Qed.

Lemma entry_measure_halve n :
  entry_measure (Np.floor_half n) <= entry_measure n /\
  (0 < entry_measure n -> entry_measure (Np.floor_half n) < entry_measure n).
Proof.
  unfold entry_measure, Np.floor_half.
  pose proof (Z.div_mod n 2 ltac:(lia)) as Hd.
  pose proof (Z.mod_pos_bound n 2 ltac:(lia)) as Hm.
  zbool; lia.
Qed.

Lemma margin_measure_nonneg n_v : 0 <= margin_measure n_v.
Proof.
  destruct n_v as [[n0 n1] n2]; unfold margin_measure.
  pose proof (entry_measure_nonneg n0). pose proof (entry_measure_nonneg n1).
  pose proof (entry_measure_nonneg n2). lia.
Qed.

Lemma count_checks_six shape lower upper :
  count_checks shape lower upper = 6 <->
  let '(sh0, sh1, sh2) := shape in
  let '(lo0, lo1, lo2) := lower in
  let '(hi0, hi1, hi2) := upper in
  (0 <= lo0 /\ hi0 <= sh0 - 1) /\
  (0 <= lo1 /\ hi1 <= sh1 - 1) /\
  (0 <= lo2 /\ hi2 <= sh2 - 1).
Proof.
  destruct shape as [[sh0 sh1] sh2], lower as [[lo0 lo1] lo2],
           upper as [[hi0 hi1] hi2].
  unfold count_checks, b2z. zbool; lia.
Qed.

(** the six checks of the first iteration pass when every [int64] border
    is in the range of its axis *)
Lemma check_passes_iff shape b n_v :
  check shape b n_v = 6 <->
  let '(sh0, sh1, sh2) := shape in
  let '(n0, n1, n2) := n_v in
  (0 <= I64.sub_index (b00 b) n0 /\ I64.add_index (b01 b) n0 <= sh0 - 1) /\
  (0 <= I64.sub_index (b10 b) n1 /\ I64.add_index (b11 b) n1 <= sh1 - 1) /\
  (0 <= I64.sub_index (b20 b) n2 /\ I64.add_index (b21 b) n2 <= sh2 - 1).
Proof.
  destruct shape as [[sh0 sh1] sh2], n_v as [[n0 n1] n2].
  unfold check. now rewrite count_checks_six.
Qed.

Lemma check_float_passes_iff shape b n_v :
  check_float shape b n_v = 6 <->
  let '(sh0, sh1, sh2) := shape in
  let '(n0, n1, n2) := n_v in
  (0 <= b00 b - n0 /\ b01 b + n0 <= sh0 - 1) /\
  (0 <= b10 b - n1 /\ b11 b + n1 <= sh1 - 1) /\
  (0 <= b20 b - n2 /\ b21 b + n2 <= sh2 - 1).
Proof.
  destruct shape as [[sh0 sh1] sh2], n_v as [[n0 n1] n2].
  unfold check_float. now rewrite count_checks_six.
Qed.

(** for the extents of an array and a margin that an [int64] holds, the
    first iteration checks the exact borders unless one of them
    overflows: the lower one for [n <= lo - 2^63], the upper one for
    [n >= 2^63 - hi] *)
Lemma sub_index_exact i n :
  0 <= i -> i - I64.max <= n -> I64.sub_index i n = i - n.
Proof.
  intros Hi Hn. unfold I64.sub_index.
  destruct (Z.ltb_spec n 0); [|reflexivity].
  apply wrap_in_range. i64. lia.
Qed.

Lemma add_index_exact i n :
  0 <= i -> n <= I64.max - i -> I64.add_index i n = i + n.
Proof.
  intros Hi Hn. unfold I64.add_index.
  destruct (Z.ltb_spec 0 n); [|reflexivity].
  apply wrap_in_range. i64. lia.
Qed.

(** at a fixpoint of the halving the tight box passes the six checks *)
Lemma check_float_at_fixpoint shape b n_v :
  tight_within shape b -> margin_measure n_v = 0 ->
  check_float shape b n_v = 6.
Proof.
  intros Ht Hm. apply check_float_passes_iff.
  destruct shape as [[sh0 sh1] sh2], n_v as [[n0 n1] n2].
  unfold tight_within in Ht. unfold margin_measure, entry_measure in Hm.
  revert Hm. zbool; lia.
Qed.

Lemma check_at_fixpoint shape b n_v :
  tight_within shape b -> array_sized shape -> margin_measure n_v = 0 ->
  check shape b n_v = 6.
Proof.
  intros Ht Ha Hm. apply check_passes_iff.
  destruct shape as [[sh0 sh1] sh2], n_v as [[n0 n1] n2].
  unfold tight_within in Ht. unfold array_sized in Ha.
  unfold margin_measure, entry_measure in Hm.
  assert (n0 = 0 \/ n0 = -1) by (revert Hm; zbool; lia).
  assert (n1 = 0 \/ n1 = -1) by (revert Hm; zbool; lia).
  assert (n2 = 0 \/ n2 = -1) by (revert Hm; zbool; lia).
  rewrite !sub_index_exact, !add_index_exact by (i64; lia). lia.
Qed.

Lemma check_as_at_fixpoint dt shape b n_v :
  tight_within shape b -> dt = float64 \/ array_sized shape ->
  margin_measure n_v = 0 -> check_as dt shape b n_v = 6.
Proof.
  intros Ht Hdt Hm. destruct dt; cbn [check_as].
  - destruct Hdt as [Hdt|Ha]; [discriminate|]. now apply check_at_fixpoint.
  - now apply check_float_at_fixpoint.
Qed.

Lemma margin_measure_halve n_v :
  0 < margin_measure n_v -> margin_measure (halve n_v) < margin_measure n_v.
Proof.
  destruct n_v as [[n0 n1] n2]. unfold margin_measure, halve.
  pose proof (entry_measure_halve n0). pose proof (entry_measure_halve n1).
  pose proof (entry_measure_halve n2).
  pose proof (entry_measure_nonneg n0). pose proof (entry_measure_nonneg n1).
  pose proof (entry_measure_nonneg n2). lia.
Qed.

Lemma margin_nonneg_halve n_v : margin_nonneg n_v -> margin_nonneg (halve n_v).
Proof.
  destruct n_v as [[n0 n1] n2]. unfold margin_nonneg, halve, Np.floor_half.
  intros (H0 & H1 & H2).
  repeat split; apply Z.div_pos; lia.
Qed.

Lemma margin_nonneg_measure_zero n_v :
  margin_nonneg n_v -> margin_measure n_v = 0 -> sum3 (halve n_v) = 0.
Proof.
  destruct n_v as [[n0 n1] n2].
  unfold margin_nonneg, margin_measure, entry_measure, halve, sum3, Np.floor_half.
  intros (H0 & H1 & H2). zbool; try lia. intros Hs.
  assert (n0 = 0 /\ n1 = 0 /\ n2 = 0) as (-> & -> & ->) by lia.
  reflexivity.
Qed.

(** for the margins that [compute_box] computes, which have one sign on all
    axes, the halved entries sum to 0 only when they are all 0 *)
Lemma fallback_is_zero_margin n_v :
  margin_nonneg n_v \/ margin_nonneg (let '(n0, n1, n2) := n_v in (- n0, - n1, - n2)) ->
  sum3 (halve n_v) = 0 -> halve n_v = (0, 0, 0).
Proof.
  destruct n_v as [[n0 n1] n2].
  unfold margin_nonneg, sum3, halve, Np.floor_half.
  pose proof (Z.div_mod n0 2 ltac:(lia)). pose proof (Z.mod_pos_bound n0 2 ltac:(lia)).
  pose proof (Z.div_mod n1 2 ltac:(lia)). pose proof (Z.mod_pos_bound n1 2 ltac:(lia)).
  pose proof (Z.div_mod n2 2 ltac:(lia)). pose proof (Z.mod_pos_bound n2 2 ltac:(lia)).
  intros Hsign Hsum.
  assert (n0 / 2 = 0 /\ n1 / 2 = 0 /\ n2 / 2 = 0) as (-> & -> & ->) by lia.
  reflexivity.
Qed.

Lemma margin_admissible_halve b n_v :
  b00 b <= b01 b -> b10 b <= b11 b -> b20 b <= b21 b ->
  margin_admissible b n_v -> margin_admissible b (halve n_v).
Proof.
  destruct n_v as [[n0 n1] n2]. unfold margin_admissible, halve, Np.floor_half.
  intros.
  pose proof (Z.div_mod n0 2 ltac:(lia)). pose proof (Z.mod_pos_bound n0 2 ltac:(lia)).
  pose proof (Z.div_mod n1 2 ltac:(lia)). pose proof (Z.mod_pos_bound n1 2 ltac:(lia)).
  pose proof (Z.div_mod n2 2 ltac:(lia)). pose proof (Z.mod_pos_bound n2 2 ltac:(lia)).
  lia.
Qed.


Lemma shrink_loop_enough_fuel shape b :
  forall fuel dt n_v,
    (tight_within shape b /\ (dt = float64 \/ array_sized shape))
    \/ margin_nonneg n_v ->
    margin_measure n_v < Z.of_nat fuel ->
    exists dt' n,
      shrink_loop dt fuel shape b n_v = Ok (dt', n) /\
      loop_exit shape b dt n_v dt' n.
Proof.
  induction fuel as [|fuel IH]; intros dt n_v Hcase Hfuel.
  - pose proof (margin_measure_nonneg n_v). lia.
  - cbn [shrink_loop].
    destruct (Z.eqb_spec (check_as dt shape b n_v) 6) as [Hc|Hc].
    { exists dt, n_v. split; [reflexivity | now constructor]. }
    destruct (Z.eqb_spec (sum3 (halve n_v)) 0) as [Hs|Hs].
    { exists float64, (0, 0, 0). split; [reflexivity | now apply exit_fallback]. }
    assert (0 < margin_measure n_v) as Hpos.
    { pose proof (margin_measure_nonneg n_v).
      destruct (Z.eq_dec (margin_measure n_v) 0) as [Hz|Hz]; [|lia].
      destruct Hcase as [[Ht Hdt]|Hn].
      - contradict Hc. now apply check_as_at_fixpoint.
      - contradict Hs. now apply margin_nonneg_measure_zero. }
    pose proof (margin_measure_halve n_v Hpos) as Hlt.
    destruct (IH float64 (halve n_v)) as (dt' & n & Hrun & Hexit).
    + destruct Hcase as [[Ht _]|Hn];
        [left; split; [exact Ht | now left]
        | right; now apply margin_nonneg_halve].
    + lia.
    + exists dt', n. split; [exact Hrun | now apply exit_retry].
Qed.

Lemma loop_exit_functional shape b dt n_v dt1 n1 dt2 n2 :
  loop_exit shape b dt n_v dt1 n1 -> loop_exit shape b dt n_v dt2 n2 ->
  dt1 = dt2 /\ n1 = n2.
Proof.
  intros H; revert dt2 n2.
  induction H as [dt n_v Hc|dt n_v Hc Hs|dt n_v dt' n Hc Hs H IH];
    intros dt2 n2 H'; inversion H'; subst; try congruence;
    try contradiction; try (split; reflexivity).
  now apply IH.
Qed.


(** ** Expanding the box *)

Lemma sub_float_exact i n : - 2 ^ 52 < n -> sub_float i n = i - n.
Proof.
  intros Hn. unfold sub_float. destruct (Z.leb_spec n (- 2 ^ 52)); [lia|].
  reflexivity.
Qed.

Lemma add_float_exact i n : - 2 ^ 52 < n -> add_float i n = i + n.
Proof.
  intros Hn. unfold add_float. destruct (Z.leb_spec n (- 2 ^ 52)); [lia|].
  reflexivity.
Qed.

Lemma expand_float_exact b n_v :
  (let '(n0, n1, n2) := n_v in
   - 2 ^ 52 < n0 /\ - 2 ^ 52 < n1 /\ - 2 ^ 52 < n2) ->
  expand_float b n_v = expand b n_v.
Proof.
  destruct n_v as [[n0 n1] n2]. intros (H0 & H1 & H2).
  unfold expand_float, expand.
  now rewrite !sub_float_exact, !add_float_exact by trivial.
Qed.

Lemma expand_as_nonneg dt b n_v :
  margin_nonneg n_v -> expand_as dt b n_v = expand b n_v.
Proof.
  intros Hnn. destruct dt; [reflexivity|]. cbn [expand_as].
  apply expand_float_exact. destruct n_v as [[n0 n1] n2].
  unfold margin_nonneg in Hnn. i64. lia.
Qed.

Lemma loop_exit_nonneg shape b dt n_v dt' n :
  loop_exit shape b dt n_v dt' n -> margin_nonneg n_v -> margin_nonneg n.
Proof.
  induction 1 as [dt n_v Hc|dt n_v Hc Hs|dt n_v dt' n Hc Hs Hexit IH];
    intros Hnn; trivial.
  - cbn. lia.
  - apply IH. now apply margin_nonneg_halve.
Qed.

(** the box that the loop leaves, for a tight box inside a volume and a
    requested margin that does not turn it inside out *)
Lemma loop_exit_in_range shape b dt n_v dt' n :
  tight_within shape b -> array_sized shape -> margin_admissible b n_v ->
  loop_exit shape b dt n_v dt' n ->
  box_in_range shape (expand_as dt' b n).
Proof.
  intros Ht Hsz Ha Hexit.
  induction Hexit as [dt n_v Hc|dt n_v Hc Hs|dt n_v dt' n Hc Hs Hexit IH].
  - destruct shape as [[sh0 sh1] sh2], n_v as [[n0 n1] n2].
    unfold tight_within in Ht. unfold margin_admissible in Ha.
    unfold array_sized in Hsz.
    destruct dt; cbn [check_as expand_as] in *.
    + apply check_passes_iff in Hc.
      rewrite !sub_index_exact in Hc by (i64; lia).
      assert (n0 <= b00 b /\ n1 <= b10 b /\ n2 <= b20 b) as (? & ? & ?)
        by lia.
      rewrite !add_index_exact in Hc by (i64; lia).
      unfold box_in_range, expand; cbn. lia.
    + apply check_float_passes_iff in Hc.
      rewrite expand_float_exact by (i64; lia).
      unfold box_in_range, expand; cbn. lia.
  - destruct shape as [[sh0 sh1] sh2].
    unfold tight_within in Ht. cbn [expand_as].
    rewrite expand_float_exact by (i64; lia).
    unfold box_in_range, expand; cbn. lia.
  - apply IH. apply margin_admissible_halve; trivial;
      destruct shape as [[sh0 sh1] sh2]; unfold tight_within in Ht; lia.
Qed.

Lemma margin_nonneg_admissible shape b n_v :
  tight_within shape b -> margin_nonneg n_v -> margin_admissible b n_v.
Proof.
  destruct shape as [[sh0 sh1] sh2], n_v as [[n0 n1] n2].
  unfold tight_within, margin_nonneg, margin_admissible. lia.
Qed.

(** ** The tight box of a mask *)

Lemma nth_map_lt {A B} (f : A -> B) l i d d' :
  (i < List.length l)%nat -> nth i (map f l) d = f (nth i l d').
Proof.
  revert i. induction l as [|x l IH]; intros [|i] Hi; cbn in *; try lia; trivial.
  apply IH; lia.
Qed.

Lemma in_enum {A} (l : list A) i x d :
  In (i, x) (enum l) ->
  0 <= i < Z.of_nat (List.length l) /\ x = nth (Z.to_nat i) l d.
Proof.
  intros Hin. unfold enum in Hin.
  destruct (In_nth _ _ (0, d) Hin) as (k & Hk & Hnth).
  rewrite length_combine, length_map, length_seq, Nat.min_id in Hk.
  rewrite combine_nth in Hnth by (now rewrite length_map, length_seq).
  injection Hnth as Hi Hx.
  rewrite (nth_map_lt _ _ _ _ 0%nat) in Hi by (now rewrite length_seq).
  rewrite seq_nth in Hi by exact Hk. cbn in Hi. subst i x.
  rewrite Nat2Z.id. split; [lia | reflexivity].
Qed.

Lemma set_voxels_in_shape m n0 n1 n2 i j k :
  rect3 m n0 n1 n2 -> In (i, j, k) (set_voxels m) ->
  0 <= i < Z.of_nat n0 /\ 0 <= j < Z.of_nat n1 /\ 0 <= k < Z.of_nat n2.
Proof.
  intros [Hm Hplanes] Hin. unfold set_voxels in Hin.
  apply in_flat_map in Hin as ([i' plane] & Hi & Hin).
  apply in_flat_map in Hin as ([j' line] & Hj & Hin).
  apply in_flat_map in Hin as ([k' v] & Hk & Hin).
  destruct v; [|contradiction]. destruct Hin as [[= <- <- <-]|[]].
  destruct (in_enum _ _ _ [] Hi) as [Hi' ->].
  destruct (in_enum _ _ _ [] Hj) as [Hj' ->].
  destruct (in_enum _ _ _ false Hk) as [Hk' _].
  rewrite Hm in Hi'.
  destruct (Hplanes (Z.to_nat i') ltac:(lia)) as [Hlen Hlines].
  rewrite Hlen in Hj'.
  rewrite (Hlines (Z.to_nat j') ltac:(lia)) in Hk'. lia.
Qed.

Lemma bbox_fold_within shape ps :
  forall b,
    tight_within shape b ->
    (forall i j k, In (i, j, k) ps ->
       let '(sh0, sh1, sh2) := shape in
       0 <= i < sh0 /\ 0 <= j < sh1 /\ 0 <= k < sh2) ->
    tight_within shape (fold_left bbox_add ps b).
Proof.
  destruct shape as [[sh0 sh1] sh2].
  induction ps as [|[[i j] k] ps IH]; intros b Hb Hps; cbn [fold_left].
  - exact Hb.
  - apply IH.
    + specialize (Hps i j k (or_introl eq_refl)).
      unfold tight_within in *. unfold bbox_add; cbn. lia.
    + intros i' j' k' Hin. apply (Hps i' j' k'). now right.
Qed.

(** the tight box of a mask lies inside any volume of the mask's shape *)
Lemma compute_bounding_box_within roi n0 n1 n2 b :
  rect3 roi n0 n1 n2 ->
  compute_bounding_box roi = Ok b ->
  tight_within (Z.of_nat n0, Z.of_nat n1, Z.of_nat n2) b.
Proof.
  intros Hrect. unfold compute_bounding_box.
  destruct (set_voxels roi) as [|[[i j] k] ps] eqn:Hps; [discriminate|].
  intros [= <-].
  assert (Hall : forall i' j' k', In (i', j', k') ((i, j, k) :: ps) ->
            0 <= i' < Z.of_nat n0 /\ 0 <= j' < Z.of_nat n1
            /\ 0 <= k' < Z.of_nat n2).
  { intros i' j' k' Hin. rewrite <- Hps in Hin.
    now apply set_voxels_in_shape with (m := roi). }
  apply bbox_fold_within.
  - specialize (Hall i j k (or_introl eq_refl)). cbn. lia.
  - intros i' j' k' Hin. apply Hall. now right.
Qed.

(** the box that [compute_box] crops to, for a mask of the extent of the
    volume and an admissible requested margin *)
Lemma final_box_in_range {A} (vol : array3 A) roi box_string n0 n1 n2 b n_v :
  shape3 vol = (Z.of_nat n0, Z.of_nat n1, Z.of_nat n2) ->
  rect3 roi n0 n1 n2 ->
  array_sized (shape3 vol) ->
  compute_bounding_box roi = Ok b ->
  String.eqb box_string "box" = false ->
  requested_margin b box_string = Ok n_v ->
  margin_admissible b n_v ->
  exists box,
    (forall fuel, margin_measure n_v < Z.of_nat fuel ->
                  final_box fuel vol roi box_string = Ok box) /\
    box_in_range (shape3 vol) box.
Proof.
  intros Hshape Hrect Hsz Hb Hcomp Hreq Ha.
  pose proof (compute_bounding_box_within roi n0 n1 n2 b Hrect Hb) as Ht.
  rewrite <- Hshape in Ht.
  destruct (shrink_loop_enough_fuel (shape3 vol) b
              (S (Z.to_nat (margin_measure n_v))) int64 n_v
              (or_introl (conj Ht (or_intror Hsz)))
              ltac:(pose proof (margin_measure_nonneg n_v); lia))
    as (dt & n & _ & Hexit).
  exists (expand_as dt b n). split.
  - intros fuel Hfuel.
    destruct (shrink_loop_enough_fuel (shape3 vol) b fuel int64 n_v
                (or_introl (conj Ht (or_intror Hsz))) Hfuel)
      as (dt' & n' & Hrun & Hexit').
    destruct (loop_exit_functional _ _ _ _ _ _ _ _ Hexit' Hexit) as [-> ->].
    unfold final_box. rewrite Hb, Hcomp. cbn [bind negb].
    rewrite Hreq. cbn [bind]. now rewrite Hrun.
  - now apply loop_exit_in_range with (dt := int64) (n_v := n_v).
Qed.

(** C6 (as amended).  For a tight box inside a volume the [while] loop of
    [compute_box] ends, whatever [int64] margin it is entered with: with
    more than [margin_measure n_v] units of fuel it returns a margin [n],
    which is the first floor-halving of [n_v] that passes the six checks,
    or the zero margin (the unexpanded tight box) once the halved entries
    sum to 0.  When the requested margin does not turn the box inside out,
    [n_v >= -(size - 1)] on every axis, as every margin [n_v >= 0] is,
    the box expanded by [n] has every bound in [0, shape - 1]. *)
Theorem margin_loop_terminates_in_range :
  forall (shape : Z * Z * Z) (box_bound : bbox) (n_v : Z * Z * Z),
    tight_within shape box_bound ->
    array_sized shape ->
    exists dt n,
      (forall fuel, margin_measure n_v < Z.of_nat fuel ->
                    shrink_loop int64 fuel shape box_bound n_v = Ok (dt, n)) /\
      loop_exit shape box_bound int64 n_v dt n /\
      (margin_admissible box_bound n_v ->
       box_in_range shape (expand_as dt box_bound n)).
Proof.
  intros shape b n_v Ht Hsz.
  pose proof (or_introl (conj Ht (or_intror Hsz))
              : (tight_within shape b /\ (int64 = float64 \/ array_sized shape))
                \/ margin_nonneg n_v) as Hcase.
  destruct (shrink_loop_enough_fuel shape b
              (S (Z.to_nat (margin_measure n_v))) int64 n_v Hcase
              ltac:(pose proof (margin_measure_nonneg n_v); lia))
    as (dt & n & _ & Hexit).
  exists dt, n. split; [|split].
  - intros fuel Hfuel.
    destruct (shrink_loop_enough_fuel shape b fuel int64 n_v Hcase Hfuel)
      as (dt' & n' & Hrun & Hexit').
    now destruct (loop_exit_functional _ _ _ _ _ _ _ _ Hexit' Hexit)
      as [-> ->].
  - exact Hexit.
  - intros Ha. now apply loop_exit_in_range with (dt := int64) (n_v := n_v).
Qed.

Lemma margin_loop_terminates_in_range_witness :
  tight_within (3, 3, 4) sample_box /\ array_sized (3, 3, 4) /\
  exists dt n,
    (forall fuel, margin_measure (5, 5, 5) < Z.of_nat fuel ->
                  shrink_loop int64 fuel (3, 3, 4) sample_box (5, 5, 5)
                  = Ok (dt, n)) /\
    loop_exit (3, 3, 4) sample_box int64 (5, 5, 5) dt n /\
    (margin_admissible sample_box (5, 5, 5) ->
     box_in_range (3, 3, 4) (expand_as dt sample_box n)).
Proof.
  assert (Ht : tight_within (3, 3, 4) sample_box) by (cbn; lia).
  assert (Hsz : array_sized (3, 3, 4)) by (cbn; lia).
  split; [exact Ht |]. split; [exact Hsz |].
  exact (margin_loop_terminates_in_range (3, 3, 4) sample_box (5, 5, 5) Ht Hsz).
Defined.

(** C6 (counterexample).  The tight box of the sample mask lies inside the
    3 x 3 x 4 volume.  The margin -3 that "box-3" requests passes the six
    checks as it is, and the box that [compute_box] crops to runs from 4
    down to -2 on the first axis: neither bound is an index of the
    volume. *)
Lemma negative_margin_leaves_range :
  compute_bounding_box sample_roi = Ok sample_box /\
  tight_within (shape3 sample_vol) sample_box /\
  requested_margin sample_box "box-3" = Ok (-3, -3, -3) /\
  (forall fuel,
      final_box (S fuel) sample_vol sample_roi "box-3"
      = Ok (mk_bbox 4 (-2) 4 (-2) 4 (-1))) /\
  ~ box_in_range (shape3 sample_vol) (mk_bbox 4 (-2) 4 (-2) 4 (-1)).
Proof.
  split; [reflexivity|]. split; [cbn; lia|].
  split; [vm_compute; reflexivity|]. split.
  - intros fuel. vm_compute. reflexivity.
  - cbn. lia.
Qed.

(** a margin that [.astype(int)] cannot hold: 2^63 becomes -2^63, the
    lower border of the first iteration overflows, and the halved margin
    -2^62 passes the six checks *)
Lemma overflowing_margin_leaves_range :
  requested_margin sample_box "box9223372036854775808"
  = Ok (- 2 ^ 63, - 2 ^ 63, - 2 ^ 63) /\
  check (shape3 sample_vol) sample_box (- 2 ^ 63, - 2 ^ 63, - 2 ^ 63) = 3 /\
  forall fuel,
    final_box (S (S fuel)) sample_vol sample_roi "box9223372036854775808"
    = Ok (mk_bbox (2 ^ 62) (- 2 ^ 62) (2 ^ 62) (- 2 ^ 62)
                  (2 ^ 62) (- 2 ^ 62)).
Proof.
  split; [vm_compute; reflexivity|]. split; [vm_compute; reflexivity|].
  intros fuel. vm_compute. reflexivity.
Qed.

(** without a tight box inside the volume the loop need not end: a margin
    of -1 that fails the checks is halved to itself for ever *)
Lemma shrink_loop_stuck shape b :
  check shape b (-1, -1, -1) <> 6 ->
  check_float shape b (-1, -1, -1) <> 6 ->
  forall fuel dt, shrink_loop dt fuel shape b (-1, -1, -1) = Err OutOfFuel.
Proof.
  intros Hc Hf fuel. induction fuel as [|fuel IH]; intros dt; [reflexivity|].
  cbn [shrink_loop].
  destruct (Z.eqb_spec (check_as dt shape b (-1, -1, -1)) 6) as [H6|_].
  { destruct dt; contradiction. }
  apply IH.
Qed.

(** ** Rounding *)

Lemma round_within_half (q : Q) :
  (q - (1 # 2) <= inject_Z (Np.round q) <= q + (1 # 2))%Q.
Proof.
  unfold Np.round.
  pose proof (Qfloor_le q) as Hlo.
  pose proof (Qlt_floor q) as Hhi.
  rewrite inject_Z_plus in Hhi. change (inject_Z 1) with 1%Q in Hhi.
  assert (inject_Z (Qfloor q + 1) == inject_Z (Qfloor q) + 1)%Q as Hs
    by (now rewrite inject_Z_plus).
  destruct (q - inject_Z (Qfloor q) ?= 1 # 2)%Q eqn:Hcmp.
  - apply Qeq_alt in Hcmp.
    destruct (Z.even (Qfloor q)); [|rewrite Hs]; lra.
  - apply Qlt_alt in Hcmp. lra.
  - apply Qgt_alt in Hcmp. rewrite Hs. lra.
Qed.

(** [round(n / 2)] for an integer [n]: between [n/2 - 1/2] and
    [n/2 + 1/2] *)
Lemma round_half_bounds (n : Z) :
  n - 1 <= 2 * Np.round (inject_Z n / 2) <= n + 1.
Proof.
  pose proof (round_within_half (inject_Z n / 2)) as [Hlo Hhi].
  set (m := Np.round (inject_Z n / 2)) in *.
  assert (inject_Z n / 2 * 2 == inject_Z n)%Q as Hn by field.
  assert (inject_Z (n - 1) <= inject_Z (2 * m))%Q as H1.
  { replace (n - 1) with (n + -1) by lia.
    rewrite inject_Z_mult, inject_Z_plus.
    change (inject_Z 2) with 2%Q. change (inject_Z (-1)) with (-1)%Q.
    clearbody m. set (h := (inject_Z n / 2)%Q) in *. clearbody h.
    set (qn := inject_Z n) in *. set (qm := inject_Z m) in *.
    clearbody qn qm. lra. }
  assert (inject_Z (2 * m) <= inject_Z (n + 1))%Q as H2.
  { rewrite inject_Z_mult, inject_Z_plus.
    change (inject_Z 2) with 2%Q. change (inject_Z 1) with 1%Q.
    clearbody m. set (h := (inject_Z n / 2)%Q) in *. clearbody h.
    set (qn := inject_Z n) in *. set (qm := inject_Z m) in *.
    clearbody qn qm. lra. }
  rewrite <- Zle_Qle in H1, H2. lia.
Qed.

(** ** Cropping *)

Lemma expand_zero b : expand b (0, 0, 0) = b.
Proof. destruct b; unfold expand; cbn. f_equal; lia. Qed.

Lemma final_box_run {A} (vol : array3 A) roi box_string b n_v dt n fuel :
  compute_bounding_box roi = Ok b ->
  (String.eqb box_string "box" = false ->
   requested_margin b box_string = Ok n_v /\
   shrink_loop int64 fuel (shape3 vol) b n_v = Ok (dt, n)) ->
  (String.eqb box_string "box" = true -> dt = float64 /\ n = (0, 0, 0)) ->
  final_box fuel vol roi box_string = Ok (expand_as dt b n).
Proof.
  intros Hb Hrun Hcomp. unfold final_box. rewrite Hb. cbn [bind].
  destruct (String.eqb box_string "box"); cbn [negb].
  - now destruct (Hcomp eq_refl) as [-> ->].
  - destruct (Hrun eq_refl) as [Hreq Hloop].
    rewrite Hreq. cbn [bind]. now rewrite Hloop.
Qed.

(** C5 (as amended).  [compute_box] never compares the extents of [vol]
    and [roi].  For a box-type specification, a mask with a set voxel and
    a requested margin that is not negative, it returns, with enough fuel,
    the two arrays each sliced with the same index ranges and the derived
    reference, whatever the extents of the two arrays are. *)
Theorem compute_box_slices_without_extent_check :
  forall (A : Type) (im : imref_module) (vol : array3 A) (roi : array3 bool)
         (spatial_ref : imref3d) (box_string : string) (b : bbox)
         (n_v : Z * Z * Z),
    PyStr.contains "box" box_string = true ->
    compute_bounding_box roi = Ok b ->
    (if String.eqb box_string "box" then n_v = (0, 0, 0)
     else requested_margin b box_string = Ok n_v /\ margin_nonneg n_v) ->
    exists n,
      forall fuel, margin_measure n_v < Z.of_nat fuel ->
        compute_box im fuel vol roi spatial_ref box_string
        = Ok (crop (expand b n) vol, crop (expand b n) roi,
              cropped_ref im spatial_ref (expand b n)).
Proof.
  intros A im vol roi spatial_ref box_string b n_v Hin Hb Hreq.
  unfold compute_box. rewrite Hin.
  destruct (String.eqb box_string "box") eqn:Hcomp.
  - exists (0, 0, 0). intros fuel _.
    rewrite (final_box_run vol roi box_string b n_v float64 (0, 0, 0) fuel);
      [|exact Hb|intros Hf; congruence|intros _; split; reflexivity].
    cbn [bind]. rewrite expand_as_nonneg by (cbn; lia). reflexivity.
  - destruct Hreq as [Hreq Hnn].
    destruct (shrink_loop_enough_fuel (shape3 vol) b
                (S (Z.to_nat (margin_measure n_v))) int64 n_v (or_intror Hnn)
                ltac:(pose proof (margin_measure_nonneg n_v); lia))
      as (dt & n & _ & Hexit).
    exists n. intros fuel Hfuel.
    destruct (shrink_loop_enough_fuel (shape3 vol) b fuel int64 n_v
                (or_intror Hnn) Hfuel) as (dt' & n' & Hrun & Hexit').
    destruct (loop_exit_functional _ _ _ _ _ _ _ _ Hexit' Hexit) as [-> ->].
    rewrite (final_box_run vol roi box_string b n_v dt n fuel);
      [|exact Hb|intros _; split; trivial|intros Hf; congruence].
    cbn [bind].
    rewrite expand_as_nonneg by (now apply (loop_exit_nonneg _ _ _ _ _ _ Hexit)).
    reflexivity.
Qed.

Lemma compute_box_slices_without_extent_check_witness :
  shape3 small_vol <> shape3 sample_roi /\
  exists n,
    forall fuel, margin_measure (1, 1, 1) < Z.of_nat fuel ->
      compute_box spec_imref fuel small_vol sample_roi sample_ref "box1"
      = Ok (crop (expand sample_box n) small_vol,
            crop (expand sample_box n) sample_roi,
            cropped_ref spec_imref sample_ref (expand sample_box n)).
Proof.
  split; [discriminate|].
  apply (compute_box_slices_without_extent_check
           Z spec_imref small_vol sample_roi sample_ref "box1" sample_box
           (1, 1, 1)).
  - reflexivity.
  - reflexivity.
  - cbn. split; [reflexivity | lia].
Defined.

(** C5 (counterexample).  A 2 x 2 x 2 volume and a 3 x 3 x 4 mask: the
    extents disagree, and "box" returns cropped arrays (of different
    extents) instead of failing. *)
Lemma compute_box_accepts_mismatched_extents :
  shape3 small_vol <> shape3 sample_roi /\
  exists new_ref,
    compute_box spec_imref 0 small_vol sample_roi sample_ref "box"
    = Ok ([[[7]]], [[[true; true]]], new_ref).
Proof.
  split; [discriminate|].
  eexists. vm_compute. reflexivity.
Qed.

(** ** The reference of the cropped arrays *)

Lemma cropped_ref_fields im R b :
  ImageSize (cropped_ref im R b) = size_box b /\
  PixelExtentInWorldX (cropped_ref im R b) = PixelExtentInWorldX R /\
  PixelExtentInWorldY (cropped_ref im R b) = PixelExtentInWorldY R /\
  PixelExtentInWorldZ (cropped_ref im R b) = PixelExtentInWorldZ R.
Proof.
  unfold cropped_ref, size_box.
  destruct (to_world im R _ _ _) as [[x y] z]; cbn. repeat split.
Qed.

(** "the limit is defined as the border of the first pixel": the lower
    limits are the world point of the box's minimum index less half a
    pixel *)
Lemma cropped_ref_lower_limits im R b :
  let '(x_limit, y_limit, z_limit) :=
    to_world im R (inject_Z (b00 b)) (inject_Z (b10 b)) (inject_Z (b20 b)) in
  (fst (XWorldLimits (cropped_ref im R b)) == x_limit - PixelExtentInWorldX R / 2 /\
   fst (YWorldLimits (cropped_ref im R b)) == y_limit - PixelExtentInWorldY R / 2 /\
   fst (ZWorldLimits (cropped_ref im R b)) == z_limit - PixelExtentInWorldZ R / 2)%Q.
Proof.
  unfold cropped_ref, size_box.
  destruct (to_world im R _ _ _) as [[x y] z]; cbn. repeat split; ring.
Qed.

Lemma cropped_ref_limits_consistent im R b :
  limits_consistent (cropped_ref im R b).
Proof.
  unfold limits_consistent, cropped_ref, size_box.
  destruct (to_world im R _ _ _) as [[x y] z]; cbn. repeat split; ring.
Qed.

Lemma cropped_ref_world c w0 R b (i j k : Q) :
  world_eq
    (index_to_world c (cropped_ref (mk_imref_module (index_to_world c) w0) R b)
       (i - inject_Z (b00 b)) (j - inject_Z (b10 b)) (k - inject_Z (b20 b)))
    (index_to_world c R (i + (c - (1 # 2))) (j + (c - (1 # 2)))
                    (k + (c - (1 # 2)))).
Proof.
  unfold world_eq, index_to_world, cropped_ref, size_box; cbn.
  repeat split; field.
Qed.

Lemma world_eq_trans p q r : world_eq p q -> world_eq q r -> world_eq p r.
Proof.
  intros (H1 & H2 & H3) (H4 & H5 & H6).
  repeat split; eapply Qeq_trans; eassumption.
Qed.

Lemma index_to_world_ext c R i i' j j' k k' :
  (i == i')%Q -> (j == j')%Q -> (k == k')%Q ->
  world_eq (index_to_world c R i j k) (index_to_world c R i' j' k').
Proof.
  intros Hi Hj Hk. unfold world_eq, index_to_world; cbn.
  rewrite Hi, Hj, Hk. repeat split; reflexivity.
Qed.

(** with indices counted from 0 and centred at [min + (i + 1/2) * ext],
    the crop keeps the world point of every voxel *)
Lemma cropped_ref_world_zero_based w0 R b (i j k : Q) :
  world_eq
    (index_to_world (1 # 2)
       (cropped_ref (mk_imref_module (index_to_world (1 # 2)) w0) R b)
       (i - inject_Z (b00 b)) (j - inject_Z (b10 b)) (k - inject_Z (b20 b)))
    (index_to_world (1 # 2) R i j k).
Proof.
  eapply world_eq_trans; [apply cropped_ref_world|].
  apply index_to_world_ext; ring.
Qed.

(** with [intrinsicToWorld] as the spec gives it, the new reference gives
    the new index the world point of the old index less one *)
Lemma cropped_ref_world_one_based w0 R b (i j k : Q) :
  world_eq
    (intrinsicToWorld (cropped_ref (mk_imref_module intrinsicToWorld w0) R b)
       (i - inject_Z (b00 b)) (j - inject_Z (b10 b)) (k - inject_Z (b20 b)))
    (intrinsicToWorld R (i - 1) (j - 1) (k - 1)).
Proof.
  eapply world_eq_trans; [apply (cropped_ref_world (- (1 # 2)))|].
  apply index_to_world_ext; ring.
Qed.

(** After a crop with a box-type specification the new reference has the
    extent of the box, inherits the pixel spacing and has world limits
    spanning [size * spacing].  Let [intrinsicToWorld] place index [i] at
    [min + (i + c) * ext].  The voxel of old index [(i, j, k)] has the new
    index [(i - b00, j - b10, k - b20)], and its world point under the new
    reference is the world point that the original reference gives to the
    old index moved by [c - 1/2].  So the world point is kept when
    [c = 1/2] (indices counted from 0, as [compute_box] slices), and with
    [c = -1/2], the formula [min + (i - 0.5) * ext], it is the world point
    of the old index less one. *)
Theorem compute_box_new_reference :
  forall (A : Type) (c w0 : Q) (fuel : nat) (vol : array3 A)
         (roi : array3 bool) (spatial_ref : imref3d) (box_string : string)
         (vol' : array3 A) (roi' : array3 bool) (new_spatial_ref : imref3d),
    PyStr.contains "box" box_string = true ->
    compute_box (mk_imref_module (index_to_world c) w0) fuel vol roi
                spatial_ref box_string
    = Ok (vol', roi', new_spatial_ref) ->
    exists b,
      final_box fuel vol roi box_string = Ok b /\
      vol' = crop b vol /\ roi' = crop b roi /\
      ImageSize new_spatial_ref = size_box b /\
      PixelExtentInWorldX new_spatial_ref = PixelExtentInWorldX spatial_ref /\
      PixelExtentInWorldY new_spatial_ref = PixelExtentInWorldY spatial_ref /\
      PixelExtentInWorldZ new_spatial_ref = PixelExtentInWorldZ spatial_ref /\
      limits_consistent new_spatial_ref /\
      forall i j k : Q,
        world_eq
          (index_to_world c new_spatial_ref
             (i - inject_Z (b00 b)) (j - inject_Z (b10 b))
             (k - inject_Z (b20 b)))
          (index_to_world c spatial_ref
             (i + (c - (1 # 2))) (j + (c - (1 # 2))) (k + (c - (1 # 2)))).
Proof.
  intros A c w0 fuel vol roi spatial_ref box_string vol' roi' new_ref Hin Hrun.
  unfold compute_box in Hrun. rewrite Hin in Hrun.
  destruct (final_box fuel vol roi box_string) as [b|e] eqn:Hb;
    cbn [bind] in Hrun; [|discriminate].
  injection Hrun as <- <- <-.
  exists b.
  destruct (cropped_ref_fields (mk_imref_module (index_to_world c) w0)
              spatial_ref b) as (Hs & Hx & Hy & Hz).
  refine (conj eq_refl (conj eq_refl (conj eq_refl (conj Hs
            (conj Hx (conj Hy (conj Hz (conj _ _)))))))).
  - apply cropped_ref_limits_consistent.
  - intros i j k. apply cropped_ref_world.
Qed.

Lemma compute_box_new_reference_witness :
  exists b,
    final_box 0 sample_vol sample_roi "box" = Ok b /\
    [[[17; 18]]] = crop b sample_vol /\
    [[[true; true]]] = crop b sample_roi /\
    ImageSize (cropped_ref spec_imref sample_ref sample_box) = size_box b /\
    PixelExtentInWorldX (cropped_ref spec_imref sample_ref sample_box)
    = PixelExtentInWorldX sample_ref /\
    PixelExtentInWorldY (cropped_ref spec_imref sample_ref sample_box)
    = PixelExtentInWorldY sample_ref /\
    PixelExtentInWorldZ (cropped_ref spec_imref sample_ref sample_box)
    = PixelExtentInWorldZ sample_ref /\
    limits_consistent (cropped_ref spec_imref sample_ref sample_box) /\
    forall i j k : Q,
      world_eq
        (intrinsicToWorld (cropped_ref spec_imref sample_ref sample_box)
           (i - inject_Z (b00 b)) (j - inject_Z (b10 b))
           (k - inject_Z (b20 b)))
        (intrinsicToWorld sample_ref
           (i + (- (1 # 2) - (1 # 2))) (j + (- (1 # 2) - (1 # 2)))
           (k + (- (1 # 2) - (1 # 2)))).
Proof.
  apply (compute_box_new_reference
           Z (- (1 # 2))%Q 0%Q 0%nat sample_vol sample_roi sample_ref "box").
  - reflexivity.
  - reflexivity.
Defined.


(** ** binary64 *)

Lemma pow2_pos e : (0 < F64.pow2 e)%Q.
Proof. apply Qpower_0_lt. reflexivity. Qed.

Lemma pow2_nonneg_exp e : 0 <= e -> (F64.pow2 e == inject_Z (2 ^ e))%Q.
Proof.
  intros He. unfold F64.pow2. now rewrite Zpower_Qpower.
Qed.

Lemma pow2_add a b : (F64.pow2 (a + b) == F64.pow2 a * F64.pow2 b)%Q.
Proof. unfold F64.pow2. apply Qpower_plus. discriminate. Qed.

Lemma pow2_sub a b : (F64.pow2 (a - b) == F64.pow2 a / F64.pow2 b)%Q.
Proof. unfold F64.pow2. apply Qpower_minus. discriminate. Qed.

Lemma pow2_le a b : a <= b -> (F64.pow2 a <= F64.pow2 b)%Q.
Proof.
  intros H. unfold F64.pow2. apply Qpower_le_compat_l; [exact H|].
  discriminate.
Qed.

Lemma pow2_lt_inv a b : (F64.pow2 a < F64.pow2 b)%Q -> a < b.
Proof.
  intros H. destruct (Z.lt_ge_cases a b) as [|Hge]; [trivial|].
  apply pow2_le in Hge. lra.
Qed.

(** [2 ^ exponent q <= |q|] *)
Lemma exponent_le q : ~ (q == 0)%Q -> (F64.pow2 (F64.exponent q) <= Qabs q)%Q.
Proof.
  intros Hq. unfold F64.exponent.
  set (e := Z.log2 (Z.abs (Qnum q)) - Z.log2 (Z.pos (Qden q))).
  destruct (Qle_bool (F64.pow2 e) (Qabs q)) eqn:Ht.
  - now apply Qle_bool_iff.
  - destruct q as [n d]. cbn [Qnum Qden] in *.
    assert (n <> 0) as Hn.
    { intros ->. apply Hq. reflexivity. }
    assert (0 < Z.abs n) as Hpos by lia.
    pose proof (Z.log2_spec (Z.abs n) Hpos) as [Hlo _].
    pose proof (Z.log2_spec (Z.pos d) ltac:(lia)) as [_ Hhi].
    pose proof (Z.log2_nonneg (Z.abs n)) as Hln.
    pose proof (Z.log2_nonneg (Z.pos d)) as Hld.
    replace (e - 1) with (Z.log2 (Z.abs n) - Z.succ (Z.log2 (Z.pos d)))
      by (unfold e; lia).
    rewrite pow2_sub, !pow2_nonneg_exp by lia.
    set (a := 2 ^ Z.log2 (Z.abs n)) in *.
    set (c := 2 ^ Z.succ (Z.log2 (Z.pos d))) in *.
    assert (0 < c) by lia.
    change (Qabs (n # d)) with (Z.abs n # d).
    apply Qle_shift_div_r.
    + change 0%Q with (inject_Z 0). rewrite <- Zlt_Qlt. lia.
    + unfold Qle, Qmult, inject_Z; cbn [Qnum Qden]. nia.
Qed.

Lemma round_comp q q' : (q == q')%Q -> Np.round q = Np.round q'.
Proof.
  intros H. unfold Np.round. rewrite (Qfloor_comp _ _ H).
  assert ((q - inject_Z (Qfloor q') ?= 1 # 2)%Q
          = (q' - inject_Z (Qfloor q') ?= 1 # 2)%Q) as ->.
  { apply Qcompare_comp; [|reflexivity]. now rewrite H. }
  reflexivity.
Qed.

Lemma round_Z n : Np.round (inject_Z n) = n.
Proof.
  unfold Np.round. rewrite Qfloor_Z.
  assert ((inject_Z n - inject_Z n ?= 1 # 2)%Q = Lt) as ->; [|reflexivity].
  apply Qlt_alt. setoid_replace (inject_Z n - inject_Z n)%Q with 0%Q by ring.
  reflexivity.
Qed.


Lemma Qred_Z n : Qred (inject_Z n) = inject_Z n.
Proof.
  unfold inject_Z, Qred.
  pose proof (Z.ggcd_gcd n 1) as Hg. pose proof (Z.ggcd_correct_divisors n 1) as Hd.
  destruct (Z.ggcd n 1) as [g [aa bb]]. cbn [fst snd] in *.
  rewrite Z.gcd_1_r in Hg. subst g. destruct Hd as [Ha Hb].
  rewrite Z.mul_1_l in Ha, Hb. subst. reflexivity.
Qed.

(** a number with 53 significant bits, not below the smallest binary64
    exponent, is a binary64 value *)
Lemma dyadic_below q m j :
  (q == inject_Z m * F64.pow2 j)%Q -> Z.abs m < 2 ^ 53 ->
  (Qabs q < F64.pow2 (53 + j))%Q.
Proof.
  intros Hq Hm.
  rewrite Hq, Qabs_Qmult, (Qabs_pos (F64.pow2 j))
    by (apply Qlt_le_weak, pow2_pos).
  rewrite pow2_add, (pow2_nonneg_exp 53) by lia.
  apply Qmult_lt_compat_r; [apply pow2_pos|].
  change (Qabs (inject_Z m)) with (inject_Z (Z.abs m)).
  now rewrite <- Zlt_Qlt.
Qed.

Lemma nearest_dyadic q m j :
  (q == inject_Z m * F64.pow2 j)%Q ->
  Z.abs m < 2 ^ 53 -> - 1074 <= j <= 0 ->
  F64.nearest q = F64.Finite (Qred q).
Proof.
  intros Hq Hm Hj. unfold F64.nearest.
  destruct (Qeq_bool q 0) eqn:Hz.
  { apply Qeq_bool_iff in Hz. f_equal.
    change 0%Q with (Qred 0). now apply Qred_complete. }
  assert (~ (q == 0)%Q) as Hne.
  { intros H0. apply Qeq_bool_iff in H0. congruence. }
  pose proof (exponent_le q Hne) as Hexp.
  pose proof (dyadic_below q m j Hq Hm) as Hbelow.
  set (k := F64.last_place q).
  assert (k <= j) as Hk.
  { unfold k, F64.last_place.
    assert (F64.exponent q < 53 + j); [|lia].
    apply pow2_lt_inv. eapply Qle_lt_trans; eassumption. }
  assert (q / F64.pow2 k == inject_Z (m * 2 ^ (j - k)))%Q as Hdiv.
  { rewrite Hq, inject_Z_mult, <- pow2_nonneg_exp by lia.
    rewrite (pow2_sub j k). pose proof (pow2_pos k). field. lra. }
  rewrite (round_comp _ _ Hdiv), round_Z.
  assert (inject_Z (m * 2 ^ (j - k)) * F64.pow2 k == q)%Q as Hback.
  { rewrite <- Hdiv. pose proof (pow2_pos k). field. lra. }
  rewrite (Qred_complete _ _ Hback).
  destruct (Qle_bool (F64.pow2 1024) (Qabs (Qred q))) eqn:Ho; [|reflexivity].
  apply Qle_bool_iff in Ho. rewrite Qred_correct in Ho.
  assert (F64.pow2 (53 + j) <= F64.pow2 1024)%Q by (apply pow2_le; lia).
  lra.
Qed.

Lemma nearest_Z z :
  Z.abs z < 2 ^ 53 -> F64.nearest (inject_Z z) = F64.Finite (inject_Z z).
Proof.
  intros Hz.
  rewrite (nearest_dyadic (inject_Z z) z 0);
    [now rewrite Qred_Z | change (F64.pow2 0) with 1%Q; ring | exact Hz | lia].
Qed.


(** the conversion to [int64] gives a number that an [int64] holds *)
Lemma cast_range z : I64.min <= I64.cast z <= I64.max.
Proof.
  unfold I64.cast, I64.in_range.
  destruct (Z.leb_spec I64.min z), (Z.leb_spec z I64.max); cbn [andb];
    unfold I64.min, I64.max in *; lia.
Qed.

Lemma astype_int_range x : I64.min <= F64.astype_int x <= I64.max.
Proof.
  destruct x; cbn [F64.astype_int]; try apply cast_range;
    unfold I64.min, I64.max; lia.
Qed.

Lemma cast_in_range z : I64.min <= z <= I64.max -> I64.cast z = z.
Proof.
  intros H. unfold I64.cast, I64.in_range.
  destruct (Z.leb_spec I64.min z), (Z.leb_spec z I64.max); cbn [andb];
    trivial; lia.
Qed.

(** [sub_float] and [add_float] are the [float64] difference and sum
    stored as [int64], for an index below [2^52] and a margin below
    [2^52] *)
Lemma index_op_float64 (op : Q -> Q -> Q) (zop : Z -> Z -> Z) i n :
  (forall a b, op (inject_Z a) (inject_Z b) == inject_Z (zop a b))%Q ->
  Z.abs i < 2 ^ 52 -> Z.abs n < 2 ^ 52 -> Z.abs (zop i n) < 2 ^ 53 ->
  F64.astype_int
    (match F64.of_int i, F64.of_int n with
     | F64.Finite a, F64.Finite b => F64.nearest (op a b)
     | _, _ => F64.NaN
     end) = zop i n.
Proof.
  intros Hop Hi Hn Hr. unfold F64.of_int.
  rewrite !nearest_Z by (i64; lia).
  rewrite (nearest_dyadic _ (zop i n) 0);
    [|rewrite Hop; change (F64.pow2 0) with 1%Q; ring|exact Hr|lia].
  cbn [F64.astype_int].
  assert (Np.astype_int (Qred (op (inject_Z i) (inject_Z n))) = zop i n) as ->.
  { unfold Np.astype_int.
    assert (Qred (op (inject_Z i) (inject_Z n)) == inject_Z (zop i n))%Q as He
      by (now rewrite Qred_correct).
    rewrite (Qfloor_comp _ _ He), (Qceiling_comp _ _ He).
    destruct (Qle_bool 0 _); [apply Qfloor_Z | apply Qceiling_Z]. }
  apply cast_in_range. i64. lia.
Qed.

Lemma sub_float_float64 i n :
  0 <= i < 2 ^ 52 -> n <= i ->
  sub_float i n = F64.astype_int (F64.sub (F64.of_int i) (F64.of_int n)).
Proof.
  intros Hi Hn. unfold sub_float.
  destruct (Z.leb_spec n (- 2 ^ 52)) as [|Hlt]; [reflexivity|].
  pose proof (index_op_float64 Qminus Z.sub i n) as H.
  unfold F64.sub. unfold F64.of_int in *.
  rewrite !nearest_Z in * by (i64; lia). symmetry. apply H.
  - intros a b. unfold Z.sub. rewrite inject_Z_plus, inject_Z_opp. reflexivity.
  - i64. lia.
  - i64. lia.
  - i64. lia.
Qed.

Lemma add_float_float64 i n :
  0 <= i < 2 ^ 52 -> i + n < 2 ^ 52 ->
  add_float i n = F64.astype_int (F64.add (F64.of_int i) (F64.of_int n)).
Proof.
  intros Hi Hn. unfold add_float.
  destruct (Z.leb_spec n (- 2 ^ 52)) as [|Hlt]; [reflexivity|].
  pose proof (index_op_float64 Qplus Z.add i n) as H.
  unfold F64.add. unfold F64.of_int in *.
  rewrite !nearest_Z in * by (i64; lia). symmetry. apply H.
  - intros a b. now rewrite inject_Z_plus.
  - i64. lia.
  - i64. lia.
  - i64. lia.
Qed.

(** when the six checks pass in the first iteration, lines 93-98 do not
    overflow: [expand] is the box that the [int64] operations give *)
Lemma expand_int64 shape b n_v :
  tight_within shape b -> array_sized shape ->
  check shape b n_v = 6 ->
  let '(n0, n1, n2) := n_v in
  I64.min <= n0 <= I64.max -> I64.min <= n1 <= I64.max ->
  I64.min <= n2 <= I64.max ->
  expand b n_v
  = mk_bbox (I64.wrap (b00 b - n0)) (I64.wrap (b01 b + n0))
            (I64.wrap (b10 b - n1)) (I64.wrap (b11 b + n1))
            (I64.wrap (b20 b - n2)) (I64.wrap (b21 b + n2)).
Proof.
  intros Ht Hsz Hc. apply check_passes_iff in Hc.
  destruct shape as [[sh0 sh1] sh2], n_v as [[n0 n1] n2].
  unfold tight_within in Ht. unfold array_sized in Hsz.
  intros H0 H1 H2.
  assert (Hlo : forall i n, 0 <= i < 2 ^ 52 -> I64.min <= n <= I64.max ->
                0 <= I64.sub_index i n -> I64.wrap (i - n) = i - n /\ n <= i).
  { intros i n Hi Hn Hs. rewrite sub_index_wrap in Hs by (i64; lia).
    destruct (Z.lt_ge_cases (i - n) (2 ^ 63)) as [Hlt|Hge].
    - rewrite wrap_in_range in * by (i64; lia). split; [reflexivity|lia].
    - exfalso. unfold I64.wrap in Hs. i64.
      replace (i - n + 9223372036854775808)
        with (i - n - 9223372036854775808 + 1 * 18446744073709551616) in Hs
        by lia.
      rewrite Z.mod_add, Z.mod_small in Hs by lia. lia. }
  assert (Hhi : forall i n, 0 <= i < 2 ^ 52 -> n < 2 ^ 52 ->
                I64.min <= n <= I64.max -> I64.wrap (i + n) = i + n).
  { intros i n Hi Hn Hr. apply wrap_in_range. i64. lia. }
  destruct Hc as ((L0 & _) & (L1 & _) & (L2 & _)).
  destruct (Hlo (b00 b) n0 ltac:(i64; lia) H0 L0) as [E0 ?].
  destruct (Hlo (b10 b) n1 ltac:(i64; lia) H1 L1) as [E1 ?].
  destruct (Hlo (b20 b) n2 ltac:(i64; lia) H2 L2) as [E2 ?].
  unfold expand. rewrite E0, E1, E2.
  rewrite !Hhi by (trivial; i64; lia). reflexivity.
Qed.

(** ** The crop grammar *)














Lemma prefix_box_no_b c s :
  Ascii.eqb c "b" = false -> String.prefix "box" (String c s) = false.
Proof.
  intros Hc.
  change (String.prefix "box" (String c s))
    with (match ascii_dec "b" c with
          | left _ => String.prefix "ox" s
          | right _ => false
          end).
  destruct (ascii_dec "b" c) as [<-|]; [discriminate|reflexivity].
Qed.

Lemma index_box_after d :
  has_b d = false ->
  String.index 0 "box" (d ++ "box") = Some (String.length d).
Proof.
  induction d as [|c d IH]; intros Hd.
  - reflexivity.
  - cbn in Hd. apply orb_false_iff in Hd as [Hc Hd].
    change (String c d ++ "box")%string with (String c (d ++ "box")).
    cbn [String.index]. rewrite (prefix_box_no_b _ _ Hc), (IH Hd).
    reflexivity.
Qed.




Lemma contains_box_after d :
  has_b d = false -> PyStr.contains "box" (d ++ "box") = true.
Proof. intros Hd. unfold PyStr.contains. now rewrite index_box_after. Qed.



Lemma size_box_ordered b :
  b00 b <= b01 b /\ b10 b <= b11 b /\ b20 b <= b21 b ->
  size_box b = (b01 b - b00 b + 1, b11 b - b10 b + 1, b21 b - b20 b + 1).
Proof.
  intros (H0 & H1 & H2). unfold size_box.
  now rewrite !extent_ordered by assumption.
Qed.










(* ================================================================== *)
(** * Properties of [get_polygon_mask] *)

(** C8.  An orientation other than "Axial", "Sagittal" and "Coronal" ends
    the call in an error before the loop over the contours is entered: the
    [ValueError] of line 51 whenever the zero mask of line 29 could be
    allocated, and the error of that allocation otherwise.  No mask is
    returned. *)
Theorem get_polygon_mask_invalid_orientation :
  forall (roi_xyz : list contour_point) (spatial_ref : imref3d)
         (orientation : string),
    orientation <> "Axial"%string ->
    orientation <> "Sagittal"%string ->
    orientation <> "Coronal"%string ->
    get_polygon_mask roi_xyz spatial_ref orientation
    = match np_zeros (ImageSize spatial_ref) with
      | Ok _ => Err InvalidOrientation
      | Err e => Err e
      end.
Proof.
  intros roi_xyz spatial_ref orientation Ha Hs Hc.
  unfold get_polygon_mask, axes.
  apply String.eqb_neq in Ha, Hs, Hc. rewrite Ha, Hs, Hc.
  now destruct (np_zeros (ImageSize spatial_ref)).
Qed.

Lemma get_polygon_mask_invalid_orientation_witness :
  get_polygon_mask [mk_contour_point 0 0 0 0] sample_ref "axial"
  = Err InvalidOrientation.
Proof.
  apply (get_polygon_mask_invalid_orientation
           [mk_contour_point 0 0 0 0] sample_ref "axial"); discriminate.
Defined.

(** ** Lists *)

Lemma length_zip_with {A B C} (f : A -> B -> C) l l' :
  List.length (zip_with f l l') = Nat.min (List.length l) (List.length l').
Proof. unfold zip_with. now rewrite length_map, length_combine. Qed.

Lemma nth_zip_with {A B C} (f : A -> B -> C) l l' i da db dc :
  (i < List.length l)%nat -> (i < List.length l')%nat ->
  nth i (zip_with f l l') dc = f (nth i l da) (nth i l' db).
Proof.
  unfold zip_with. revert l' i.
  induction l as [|x l IH]; intros [|y l'] [|i]; cbn; intros Hl Hl';
    try lia; [reflexivity|].
  apply IH; lia.
Qed.

Lemma length_set_nth {A} n (x : A) l :
  List.length (set_nth n x l) = List.length l.
Proof.
  revert n. induction l as [|y l IH]; intros [|n]; cbn; trivial.
  now rewrite IH.
Qed.

Lemma nth_set_nth {A} n (x : A) l k d :
  (n < List.length l)%nat ->
  nth k (set_nth n x l) d = if (n =? k)%nat then x else nth k l d.
Proof.
  revert n k. induction l as [|y l IH]; intros [|n] [|k]; cbn; intros Hn;
    try lia; trivial.
  apply IH; lia.
Qed.

Lemma nth_repeat_lt {A} (x d : A) n i : (i < n)%nat -> nth i (repeat x n) d = x.
Proof.
  revert i. induction n as [|n IH]; intros [|i] Hi; cbn; try lia; trivial.
  apply IH; lia.
Qed.

(** ** Writing a plane into the mask *)

Lemma resolve_index_lt n sel s :
  resolve_index (Z.of_nat n) sel = Ok s -> (s < n)%nat.
Proof.
  unfold resolve_index.
  destruct (Z.leb_spec 0 sel), (Z.ltb_spec sel (Z.of_nat n)); cbn;
    try (intros [= <-]; lia);
    destruct (Z.leb_spec (- Z.of_nat n) sel), (Z.ltb_spec sel 0); cbn;
    try discriminate; intros [= <-]; lia.
Qed.

Lemma rect2_shape2 {A} (p : array2 A) n :
  rect2 p n n ->
  (fst (shape2 p) =? Z.of_nat n) && (snd (shape2 p) =? Z.of_nat n) = true.
Proof.
  intros [Hlen Hrows]. unfold shape2, Zlen; cbn [fst snd].
  rewrite Hlen, Z.eqb_refl. cbn [andb].
  destruct p as [|row p]; cbn in *.
  - subst n. reflexivity.
  - specialize (Hrows 0%nat ltac:(lia)). cbn in Hrows. rewrite Hrows.
    apply Z.eqb_refl.
Qed.

Lemma or_into_slice_voxels n n2 m sel inpoly s :
  rect3 m n n n2 -> rect2 inpoly n n ->
  resolve_index (Z.of_nat n2) sel = Ok s ->
  exists m',
    or_into_slice (Z.of_nat n, Z.of_nat n, Z.of_nat n2) m sel inpoly = Ok m' /\
    rect3 m' n n n2 /\
    forall i j k, (i < n)%nat -> (j < n)%nat -> (k < n2)%nat ->
      voxel m' i j k
      = if (s =? k)%nat
        then voxel m i j k || nth j (nth i inpoly []) false
        else voxel m i j k.
Proof.
  intros [Hm Hplanes] [Hp Hrows] Hs.
  pose proof (resolve_index_lt _ _ _ Hs) as Hlt.
  unfold or_into_slice. rewrite Hs. cbn [bind].
  rewrite (rect2_shape2 inpoly n (conj Hp Hrows)).
  eexists. split; [reflexivity|].
  set (g := fun (line : list bool) (b : bool) =>
              set_nth s (nth s line false || b) line).
  assert (Hplane : forall i, (i < n)%nat ->
            nth i (zip_with (zip_with g) m inpoly) []
            = zip_with g (nth i m []) (nth i inpoly [])).
  { intros i Hi. apply nth_zip_with; lia. }
  assert (Hline : forall i j, (i < n)%nat -> (j < n)%nat ->
            nth j (zip_with g (nth i m []) (nth i inpoly [])) []
            = g (nth j (nth i m []) []) (nth j (nth i inpoly []) false)).
  { intros i j Hi Hj. apply nth_zip_with.
    - destruct (Hplanes i Hi) as [-> _]. exact Hj.
    - rewrite (Hrows i Hi). exact Hj. }
  split.
  - split.
    + rewrite length_zip_with. lia.
    + intros i Hi. rewrite (Hplane i Hi). split.
      * rewrite length_zip_with. destruct (Hplanes i Hi) as [-> _].
        rewrite (Hrows i Hi). lia.
      * intros j Hj. rewrite (Hline i j Hi Hj). unfold g.
        rewrite length_set_nth. now destruct (Hplanes i Hi) as [_ ->].
  - intros i j k Hi Hj Hk. unfold voxel.
    rewrite (Hplane i Hi), (Hline i j Hi Hj). unfold g.
    rewrite nth_set_nth.
    + destruct (Nat.eqb_spec s k) as [->|]; reflexivity.
    + destruct (Hplanes i Hi) as [_ ->]; trivial.
Qed.

Lemma np_zeros_rect n0 n1 n2 :
  exists m,
    np_zeros (Z.of_nat n0, Z.of_nat n1, Z.of_nat n2) = Ok m /\
    rect3 m n0 n1 n2 /\
    forall i j k, (i < n0)%nat -> (j < n1)%nat -> (k < n2)%nat ->
                  voxel m i j k = false.
Proof.
  unfold np_zeros.
  destruct (Z.ltb_spec (Z.of_nat n0) 0); [lia|].
  destruct (Z.ltb_spec (Z.of_nat n1) 0); [lia|].
  destruct (Z.ltb_spec (Z.of_nat n2) 0); [lia|]. cbn [orb].
  rewrite !Nat2Z.id. eexists. split; [reflexivity|]. split.
  - split; [apply repeat_length|]. intros i Hi.
    rewrite (nth_repeat_lt _ _ _ _ Hi). split; [apply repeat_length|].
    intros j Hj. rewrite (nth_repeat_lt _ _ _ _ Hj). apply repeat_length.
  - intros i j k Hi Hj Hk. unfold voxel.
    now rewrite (nth_repeat_lt _ _ _ _ Hi), (nth_repeat_lt _ _ _ _ Hj),
      (nth_repeat_lt _ _ _ _ Hk).
Qed.

Lemma length_arange n : List.length (arange (Z.of_nat n)) = n.
Proof. unfold arange. now rewrite length_map, length_seq, Nat2Z.id. Qed.

Lemma inpolygon_meshgrid_rect xs ys x_v y_v :
  rect2 (inpolygon (fst (meshgrid xs ys)) (snd (meshgrid xs ys)) x_v y_v)
        (List.length ys) (List.length xs).
Proof.
  unfold inpolygon, meshgrid; cbn [fst snd]. split.
  - rewrite length_zip_with, !length_map. lia.
  - intros i Hi.
    rewrite (nth_zip_with _ _ _ i [] [] []); rewrite ?length_map; trivial.
    rewrite length_zip_with.
    assert (Hx : nth i (map (fun _ : Q => xs) ys) [] = xs)
      by (now rewrite (nth_map_lt _ _ _ _ 0%Q)).
    assert (Hy : List.length (nth i (map (fun y : Q => map (fun _ : Q => y) xs) ys) [])
                 = List.length xs)
      by (now rewrite (nth_map_lt _ _ _ _ 0%Q), length_map).
    rewrite Hx, Hy. lia.
Qed.

(** ** The loop over the closed contours *)

Section Contours.

Variables (roi_xyz : list contour_point) (spatial_ref : imref3d).
Variables (a b c : nat) (n n2 : nat).
Hypothesis Hsize :
  ImageSize spatial_ref = (Z.of_nat n, Z.of_nat n, Z.of_nat n2).

Lemma contour_body_unfold m c_c :
  contour_body roi_xyz spatial_ref a b c m c_c
  = (sel <- contour_slice roi_xyz spatial_ref c c_c ;;
     or_into_slice (ImageSize spatial_ref) m sel
                   (contour_plane roi_xyz spatial_ref a b c_c)).
Proof. reflexivity. Qed.

Lemma contour_plane_rect c_c :
  rect2 (contour_plane roi_xyz spatial_ref a b c_c) n n.
Proof.
  unfold contour_plane.
  pose proof (inpolygon_meshgrid_rect
                (arange (fst (fst (ImageSize spatial_ref))))
                (arange (snd (fst (ImageSize spatial_ref))))) as H.
  rewrite Hsize in *. cbn [fst snd] in *. rewrite !length_arange in H.
  apply H.
Qed.

Lemma rasterize_contour_step m c_c s :
  rect3 m n n n2 ->
  contour_slot roi_xyz spatial_ref c c_c = Ok s ->
  exists m',
    contour_body roi_xyz spatial_ref a b c m c_c = Ok m' /\
    rect3 m' n n n2 /\
    forall i j k, (i < n)%nat -> (j < n)%nat -> (k < n2)%nat ->
      voxel m' i j k
      = voxel m i j k || contour_sets roi_xyz spatial_ref a b c i j k c_c.
Proof.
  intros Hm Hslot.
  unfold contour_sets. rewrite Hslot.
  unfold contour_slot in Hslot. rewrite contour_body_unfold.
  destruct (contour_slice roi_xyz spatial_ref c c_c) as [sel|e];
    cbn [bind] in *; [|discriminate].
  rewrite Hsize in Hslot. cbn [snd] in Hslot.
  destruct (or_into_slice_voxels n n2 m sel
              (contour_plane roi_xyz spatial_ref a b c_c) s Hm
              (contour_plane_rect c_c) Hslot) as (m' & Hrun & Hrect & Hvox).
  exists m'. split; [|split; [exact Hrect|]].
  - now rewrite Hsize.
  - intros i j k Hi Hj Hk. rewrite (Hvox i j k Hi Hj Hk).
    destruct (s =? k)%nat; cbn [andb]; [reflexivity | now rewrite orb_false_r].
Qed.

Lemma for_each_contours ids :
  forall m0,
    rect3 m0 n n n2 ->
    (forall c_c, In c_c ids ->
                 exists s, contour_slot roi_xyz spatial_ref c c_c = Ok s) ->
    exists m,
      for_each (contour_body roi_xyz spatial_ref a b c) ids m0 = Ok m /\
      rect3 m n n n2 /\
      forall i j k, (i < n)%nat -> (j < n)%nat -> (k < n2)%nat ->
        voxel m i j k
        = voxel m0 i j k
          || existsb (contour_sets roi_xyz spatial_ref a b c i j k) ids.
Proof.
  induction ids as [|c_c ids IH]; intros m0 Hm0 Hslots.
  - exists m0. split; [reflexivity|]. split; [exact Hm0|].
    intros. cbn. now rewrite orb_false_r.
  - destruct (Hslots c_c (or_introl eq_refl)) as (s & Hs).
    destruct (rasterize_contour_step m0 c_c s Hm0 Hs) as (m1 & Hrun1 & Hm1 & Hv1).
    destruct (IH m1 Hm1 (fun x Hx => Hslots x (or_intror Hx)))
      as (m & Hrun & Hm & Hv).
    exists m. split; [|split; [exact Hm|]].
    + cbn [for_each]. rewrite Hrun1. exact Hrun.
    + intros i j k Hi Hj Hk.
      rewrite (Hv i j k Hi Hj Hk), (Hv1 i j k Hi Hj Hk). cbn [existsb].
      now rewrite orb_assoc.
Qed.

Lemma get_polygon_mask_run orientation :
  axes orientation = Ok (a, b, c) ->
  (forall c_c, In c_c (closed_contours roi_xyz) ->
               exists s, contour_slot roi_xyz spatial_ref c c_c = Ok s) ->
  exists m,
    get_polygon_mask roi_xyz spatial_ref orientation = Ok m /\
    rect3 m n n n2 /\
    forall i j k, (i < n)%nat -> (j < n)%nat -> (k < n2)%nat ->
      voxel m i j k
      = existsb (contour_sets roi_xyz spatial_ref a b c i j k)
                (closed_contours roi_xyz).
Proof.
  intros Haxes Hslots.
  destruct (np_zeros_rect n n n2) as (m0 & Hz & Hm0 & Hv0).
  destruct (for_each_contours (closed_contours roi_xyz) m0 Hm0 Hslots)
    as (m & Hrun & Hm & Hv).
  exists m. split; [|split; [exact Hm|]].
  - unfold get_polygon_mask. rewrite Hsize at 1. rewrite Hz. cbn [bind].
    rewrite Haxes. cbn [bind]. exact Hrun.
  - intros i j k Hi Hj Hk.
    now rewrite (Hv i j k Hi Hj Hk), (Hv0 i j k Hi Hj Hk).
Qed.

End Contours.

(** ** The mode *)

Lemma preferred_false_iff l a b :
  preferred l b a = false <-> mode_order l a b.
Proof.
  unfold preferred, mode_order.
  rewrite orb_false_iff, andb_false_iff, Nat.ltb_ge, Nat.eqb_neq, negb_false_iff,
    Qle_bool_iff.
  split.
  - intros [Hle [Hne|Hq]]; split; trivial; intros; congruence.
  - intros [Hle Hq]. split; trivial.
    destruct (Nat.eq_dec (occurrences b l) (occurrences a l)) as [He|Hne];
      [right; apply Hq; congruence | left; exact Hne].
Qed.

Lemma mode_order_refl l a : mode_order l a a.
Proof. split; [lia | intros _; apply Qle_refl]. Qed.

Lemma mode_order_trans l a b c :
  mode_order l a b -> mode_order l b c -> mode_order l a c.
Proof.
  intros [H1 H2] [H3 H4]. split; [lia|].
  intros He. apply Qle_trans with b; [apply H2 | apply H4]; lia.
Qed.

Lemma mode_order_total l a b :
  preferred l b a = true -> mode_order l b a.
Proof.
  unfold preferred, mode_order.
  rewrite orb_true_iff, andb_true_iff, Nat.ltb_lt, Nat.eqb_eq, negb_true_iff.
  intros [Hlt|[He Hq]]; split; try lia.
  intros _. destruct (Qlt_le_dec b a) as [Hlt|Hle].
  - now apply Qlt_le_weak.
  - apply Qle_bool_iff in Hle. congruence.
Qed.

Lemma mode_fold l t :
  forall best,
    let r := fold_left (fun best y => if preferred l y best then y else best)
                       t best in
    (r = best \/ In r t) /\ mode_order l r best /\
    forall y, In y t -> mode_order l r y.
Proof.
  induction t as [|y t IH]; intros best; cbn.
  - split; [now left|]. split; [apply mode_order_refl | contradiction].
  - destruct (IH (if preferred l y best then y else best)) as (Hin & Hbest & Hall).
    set (r := fold_left _ t _) in *.
    assert (mode_order l (if preferred l y best then y else best) best
            /\ mode_order l (if preferred l y best then y else best) y)
      as [Hb Hy].
    { destruct (preferred l y best) eqn:Hp.
      - split; [now apply mode_order_total | apply mode_order_refl].
      - split; [apply mode_order_refl | now apply preferred_false_iff]. }
    split; [|split].
    + destruct Hin as [Hr|Hr]; [|now right; right].
      rewrite Hr. destruct (preferred l y best); [right; now left | now left].
    + now apply mode_order_trans with (2 := Hb).
    + intros y' [<-|Hy']; [now apply mode_order_trans with (2 := Hy) | now apply Hall].
Qed.

(** the modelled [mode] is the most frequent value and, among the most
    frequent, the smallest *)
Lemma mode_spec l v :
  mode l = Ok v ->
  In v l /\ forall y, In y l -> mode_order l v y.
Proof.
  destruct l as [|x t]; [discriminate|]. intros [= <-].
  destruct (mode_fold (x :: t) t x) as (Hin & Hbest & Hall).
  split.
  - destruct Hin as [->|Hin]; [now left | now right].
  - intros y [<-|Hy]; [exact Hbest | now apply Hall].
Qed.

(** ** Where the contours are written *)

(** C1 (as amended).  For a valid orientation, an image whose first two
    extents agree and contours whose assigned slice is an index that the
    third axis accepts, [get_polygon_mask] returns a mask of the shape of
    [ImageSize] in which the voxel [(i, j, k)] is set exactly when some
    closed contour is assigned to position [k] and its rasterised plane is
    true at [(i, j)].  Whatever the orientation, the plane is rasterised
    on the grid of [ImageSize[0]] by [ImageSize[1]] points and is stored
    as [roi_mask[:, :, k]], along the third axis; the orientation selects
    only which intrinsic coordinates are the polygon's vertices ([a], [b])
    and which one is rounded to the slice ([c]). *)
Theorem get_polygon_mask_writes_third_axis :
  forall (roi_xyz : list contour_point) (spatial_ref : imref3d)
         (orientation : string) (a b c n n2 : nat),
    axes orientation = Ok (a, b, c) ->
    ImageSize spatial_ref = (Z.of_nat n, Z.of_nat n, Z.of_nat n2) ->
    (forall c_c, In c_c (closed_contours roi_xyz) ->
                 exists s, contour_slot roi_xyz spatial_ref c c_c = Ok s) ->
    exists m,
      get_polygon_mask roi_xyz spatial_ref orientation = Ok m /\
      rect3 m n n n2 /\
      forall i j k, (i < n)%nat -> (j < n)%nat -> (k < n2)%nat ->
        voxel m i j k
        = existsb (contour_sets roi_xyz spatial_ref a b c i j k)
                  (closed_contours roi_xyz).
Proof.
  intros roi_xyz spatial_ref orientation a b c n n2 Haxes Hsize Hslots.
  now apply get_polygon_mask_run.
Qed.

Lemma get_polygon_mask_writes_third_axis_witness :
  exists m,
    get_polygon_mask sagittal_square cube_ref "Sagittal" = Ok m /\
    rect3 m 3 3 3 /\
    forall i j k, (i < 3)%nat -> (j < 3)%nat -> (k < 3)%nat ->
      voxel m i j k
      = existsb (contour_sets sagittal_square cube_ref 1 2 0 i j k)
                (closed_contours sagittal_square).
Proof.
  apply (get_polygon_mask_writes_third_axis
           sagittal_square cube_ref "Sagittal" 1 2 0 3 3).
  - reflexivity.
  - reflexivity.
  - intros c_c [<-|[]]. exists 1%nat. vm_compute. reflexivity.
Defined.

(** C1 (counterexample).  A sagittal square at intrinsic X = 1 with the
    (Y, Z) vertices (0,0), (1,0), (1,1), (0,1): its assigned slice is 1,
    the voxel [0, 0, 1], which is not in [mask[1, :, :]], is set, and the
    voxel [1, 0, 0], the vertex (Y, Z) = (0, 0) of the plane X = 1, is
    not. *)
Lemma sagittal_plane_not_along_x :
  exists m,
    get_polygon_mask sagittal_square cube_ref "Sagittal" = Ok m /\
    axes "Sagittal" = Ok (1, 2, 0)%nat /\
    contour_slice sagittal_square cube_ref 0 0 = Ok 1 /\
    voxel m 0 0 1 = true /\
    voxel m 1 0 0 = false.
Proof. eexists. vm_compute. repeat split. Qed.

(** C10.  When every contour is assigned a slice that the third axis
    accepts, and all the points of one contour round to the negative slice
    [-k] with [0 < k <= ImageSize[2]], the call returns a mask: the index
    [-k] counts from the end, and the plane of that contour is OR-ed into
    the slice [ImageSize[2] - k]. *)
Theorem negative_slice_wraps_around :
  forall (roi_xyz : list contour_point) (spatial_ref : imref3d)
         (orientation : string) (a b c n n2 : nat) (c_c k : Z),
    axes orientation = Ok (a, b, c) ->
    ImageSize spatial_ref = (Z.of_nat n, Z.of_nat n, Z.of_nat n2) ->
    (forall c', In c' (closed_contours roi_xyz) ->
                exists s, contour_slot roi_xyz spatial_ref c c' = Ok s) ->
    In c_c (closed_contours roi_xyz) ->
    (forall x, In x (select (contour_rows roi_xyz c_c)
                            (rounded_slices roi_xyz spatial_ref c)) ->
               x = inject_Z (- k)) ->
    0 < k <= Z.of_nat n2 ->
    exists m,
      get_polygon_mask roi_xyz spatial_ref orientation = Ok m /\
      contour_slice roi_xyz spatial_ref c c_c = Ok (- k) /\
      contour_slot roi_xyz spatial_ref c c_c
      = Ok (Z.to_nat (Z.of_nat n2 - k)) /\
      forall i j, (i < n)%nat -> (j < n)%nat ->
        nth j (nth i (contour_plane roi_xyz spatial_ref a b c_c) []) false = true ->
        voxel m i j (Z.to_nat (Z.of_nat n2 - k)) = true.
Proof.
  intros roi_xyz spatial_ref orientation a b c n n2 c_c k
         Haxes Hsize Hslots Hin Hall Hk.
  destruct (get_polygon_mask_run roi_xyz spatial_ref a b c n n2 Hsize
              orientation Haxes Hslots) as (m & Hrun & Hrect & Hvox).
  assert (Hslice : contour_slice roi_xyz spatial_ref c c_c = Ok (- k)).
  { destruct (Hslots c_c Hin) as (s & Hs).
    unfold contour_slot, contour_slice, select_slice in *.
    destruct (mode (select (contour_rows roi_xyz c_c)
                           (rounded_slices roi_xyz spatial_ref c)))
      as [v|e] eqn:Hmode; cbn [bind] in *; [|discriminate].
    destruct (mode_spec _ _ Hmode) as [Hv _].
    rewrite (Hall v Hv). unfold Np.astype_int.
    destruct (Qle_bool 0 (inject_Z (- k)));
      [now rewrite Qfloor_Z | now rewrite Qceiling_Z]. }
  assert (Hslot : contour_slot roi_xyz spatial_ref c c_c
                  = Ok (Z.to_nat (Z.of_nat n2 - k))).
  { unfold contour_slot. rewrite Hslice, Hsize. cbn [bind snd].
    unfold resolve_index.
    destruct (Z.leb_spec 0 (- k)); [lia|]. cbn [andb].
    destruct (Z.leb_spec (- Z.of_nat n2) (- k)); [|lia].
    destruct (Z.ltb_spec (- k) 0); [|lia]. cbn [andb].
    do 2 f_equal. lia. }
  exists m. split; [exact Hrun|]. split; [exact Hslice|]. split; [exact Hslot|].
  intros i j Hi Hj Hplane.
  rewrite (Hvox i j (Z.to_nat (Z.of_nat n2 - k)) Hi Hj ltac:(lia)).
  apply existsb_exists. exists c_c. split; [exact Hin|].
  unfold contour_sets. rewrite Hslot, Nat.eqb_refl, Hplane. reflexivity.
Qed.

Lemma negative_slice_wraps_around_witness :
  exists m,
    get_polygon_mask below_volume cube_ref "Axial" = Ok m /\
    contour_slice below_volume cube_ref 2 7 = Ok (- 1) /\
    contour_slot below_volume cube_ref 2 7 = Ok (Z.to_nat (Z.of_nat 3 - 1)) /\
    forall i j, (i < 3)%nat -> (j < 3)%nat ->
      nth j (nth i (contour_plane below_volume cube_ref 0 1 7) []) false = true ->
      voxel m i j (Z.to_nat (Z.of_nat 3 - 1)) = true.
Proof.
  apply (negative_slice_wraps_around
           below_volume cube_ref "Axial" 0 1 2 3 3 7 1).
  - reflexivity.
  - reflexivity.
  - intros c' [<-|[]]. exists 2%nat. vm_compute. reflexivity.
  - vm_compute. now left.
  - intros x Hx. vm_compute in Hx.
    repeat (destruct Hx as [<-|Hx]; [reflexivity|]). contradiction.
  - lia.
Defined.

(** ** The slice of a contour *)

(** C4 (as amended).  The slice coordinates of all the points are rounded
    first, and for each closed contour the assigned slice is the mode of
    the rounded values of its points, made an integer: a value of the
    contour that no other value beats in frequency and that is the
    smallest among the most frequent ones.  That integer, resolved as an
    index of the third axis, is where the plane of the contour is
    written. *)
Theorem slice_is_mode_of_rounded :
  forall (roi_xyz : list contour_point) (spatial_ref : imref3d)
         (orientation : string) (a b c n n2 : nat) (c_c : Z),
    axes orientation = Ok (a, b, c) ->
    ImageSize spatial_ref = (Z.of_nat n, Z.of_nat n, Z.of_nat n2) ->
    (forall c', In c' (closed_contours roi_xyz) ->
                exists s, contour_slot roi_xyz spatial_ref c c' = Ok s) ->
    In c_c (closed_contours roi_xyz) ->
    let rounded := select (contour_rows roi_xyz c_c)
                          (rounded_slices roi_xyz spatial_ref c) in
    exists m v s,
      get_polygon_mask roi_xyz spatial_ref orientation = Ok m /\
      mode rounded = Ok v /\
      In v rounded /\
      (forall y, In y rounded -> mode_order rounded v y) /\
      contour_slice roi_xyz spatial_ref c c_c = Ok (Np.astype_int v) /\
      resolve_index (Z.of_nat n2) (Np.astype_int v) = Ok s /\
      forall i j, (i < n)%nat -> (j < n)%nat ->
        nth j (nth i (contour_plane roi_xyz spatial_ref a b c_c) []) false = true ->
        voxel m i j s = true.
Proof.
  intros roi_xyz spatial_ref orientation a b c n n2 c_c
         Haxes Hsize Hslots Hin rounded.
  destruct (get_polygon_mask_run roi_xyz spatial_ref a b c n n2 Hsize
              orientation Haxes Hslots) as (m & Hrun & Hrect & Hvox).
  destruct (Hslots c_c Hin) as (s & Hs).
  pose proof Hs as Hslot.
  unfold contour_slot, contour_slice, select_slice in Hs.
  fold rounded in Hs.
  destruct (mode rounded) as [v|e] eqn:Hmode; cbn [bind] in Hs; [|discriminate].
  rewrite Hsize in Hs. cbn [snd] in Hs.
  destruct (mode_spec _ _ Hmode) as [Hv Hbest].
  exists m, v, s.
  split; [exact Hrun|]. split; [reflexivity|]. split; [exact Hv|].
  split; [exact Hbest|]. split.
  { unfold contour_slice, select_slice. fold rounded. now rewrite Hmode. }
  split; [exact Hs|].
  intros i j Hi Hj Hplane.
  rewrite (Hvox i j s Hi Hj (resolve_index_lt _ _ _ Hs)).
  apply existsb_exists. exists c_c. split; [exact Hin|].
  unfold contour_sets. rewrite Hslot, Nat.eqb_refl, Hplane. reflexivity.
Qed.

Lemma slice_is_mode_of_rounded_witness :
  let rounded := select (contour_rows straddling 3)
                        (rounded_slices straddling cube_ref 2) in
  exists m v s,
    get_polygon_mask straddling cube_ref "Axial" = Ok m /\
    mode rounded = Ok v /\
    In v rounded /\
    (forall y, In y rounded -> mode_order rounded v y) /\
    contour_slice straddling cube_ref 2 3 = Ok (Np.astype_int v) /\
    resolve_index (Z.of_nat 3) (Np.astype_int v) = Ok s /\
    forall i j, (i < 3)%nat -> (j < 3)%nat ->
      nth j (nth i (contour_plane straddling cube_ref 0 1 3) []) false = true ->
      voxel m i j s = true.
Proof.
  apply (slice_is_mode_of_rounded straddling cube_ref "Axial" 0 1 2 3 3 3).
  - reflexivity.
  - reflexivity.
  - intros c' [<-|[]]. exists 1%nat. vm_compute. reflexivity.
  - vm_compute. now left.
Defined.

(** C4 (counterexample).  The intrinsic Z of the five points of the
    contour are 0.6, 0.7, 0.8, 0.4 and 0.4.  Their mode is 0.4, which
    rounds to 0; the contour is assigned to the slice 1, the mode of the
    rounded values 1, 1, 1, 0, 0, and its plane is in slice 1 and not in
    slice 0. *)
Lemma slice_is_not_round_of_mode :
  exists m v,
    mode (select (contour_rows straddling 3)
                 (map (column 2) (intrinsic_points straddling cube_ref)))
    = Ok v /\
    (v == 4 # 10)%Q /\
    Np.round v = 0 /\
    contour_slice straddling cube_ref 2 3 = Ok 1 /\
    get_polygon_mask straddling cube_ref "Axial" = Ok m /\
    voxel m 0 0 1 = true /\
    voxel m 0 0 0 = false.
Proof.
  eexists. eexists.
  split; [vm_compute; reflexivity|].
  split; [reflexivity|].
  split; [reflexivity|].
  split; [reflexivity|].
  split; [vm_compute; reflexivity|].
  split; reflexivity.
Qed.

(* ================================================================== *)
(** * Further properties of [compute_box] *)

(** ** The margin that is used *)






(** ** A loop that does not end *)

Lemma halve_negative shape b dt n_v :
  margin_negative n_v -> upper_check_fails shape b n_v ->
  margin_negative (halve n_v) /\ upper_check_fails shape b (halve n_v) /\
  check_as dt shape b n_v <> 6 /\ sum3 (halve n_v) <> 0.
Proof.
  destruct shape as [[sh0 sh1] sh2], n_v as [[n0 n1] n2].
  unfold margin_negative, upper_check_fails, halve, sum3, Np.floor_half.
  pose proof (Z.div_mod n0 2 ltac:(lia)). pose proof (Z.mod_pos_bound n0 2 ltac:(lia)).
  pose proof (Z.div_mod n1 2 ltac:(lia)). pose proof (Z.mod_pos_bound n1 2 ltac:(lia)).
  pose proof (Z.div_mod n2 2 ltac:(lia)). pose proof (Z.mod_pos_bound n2 2 ltac:(lia)).
  intros Hneg Hup. repeat split; try lia.
  intros Hc. destruct dt; cbn [check_as] in Hc.
  - apply check_passes_iff in Hc. unfold I64.add_index in Hc.
    destruct (Z.ltb_spec 0 n0), (Z.ltb_spec 0 n1), (Z.ltb_spec 0 n2); lia.
  - apply check_float_passes_iff in Hc. lia.
Qed.

Lemma shrink_loop_runs_out shape b :
  forall fuel dt n_v,
    margin_negative n_v -> upper_check_fails shape b n_v ->
    shrink_loop dt fuel shape b n_v = Err OutOfFuel.
Proof.
  induction fuel as [|fuel IH]; intros dt n_v Hneg Hup; [reflexivity|].
  destruct (halve_negative shape b dt n_v Hneg Hup) as (Hneg' & Hup' & Hc & Hs).
  cbn [shrink_loop].
  destruct (Z.eqb_spec (check_as dt shape b n_v) 6); [contradiction|].
  destruct (Z.eqb_spec (sum3 (halve n_v)) 0); [contradiction|].
  now apply IH.
Qed.

(** X2.  When the requested margin is negative on every axis and, on some
    axis, the upper border of the tight box moved by that margin is beyond
    the volume (the mask reaches further than the volume), the [while]
    loop of [compute_box] never ends: every halving again fails the checks
    and the halved margins never sum to 0, so no amount of fuel gives a
    result. *)
Theorem compute_box_loops_for_ever :
  forall (A : Type) (im : imref_module) (vol : array3 A) (roi : array3 bool)
         (spatial_ref : imref3d) (box_string : string) (b : bbox)
         (n_v : Z * Z * Z),
    PyStr.contains "box" box_string = true ->
    compute_bounding_box roi = Ok b ->
    requested_margin b box_string = Ok n_v ->
    margin_negative n_v ->
    upper_check_fails (shape3 vol) b n_v ->
    forall fuel,
      compute_box im fuel vol roi spatial_ref box_string = Err OutOfFuel.
Proof.
  intros A im vol roi spatial_ref box_string b n_v Hin Hb Hreq Hneg Hup fuel.
  unfold compute_box, final_box. rewrite Hin, Hb. cbn [bind].
  destruct (String.eqb_spec box_string "box") as [->|Hne].
  - vm_compute in Hreq. discriminate.
  - cbn [negb]. rewrite Hreq. cbn [bind].
    now rewrite (shrink_loop_runs_out _ _ fuel int64 n_v Hneg Hup).
Qed.

Lemma compute_box_loops_for_ever_witness :
  requested_margin sample_box "box-1" = Ok (-1, -1, -1) /\
  forall fuel,
    compute_box spec_imref fuel tiny_vol sample_roi sample_ref "box-1"
    = Err OutOfFuel.
Proof.
  split; [reflexivity|].
  apply (compute_box_loops_for_ever Z spec_imref tiny_vol sample_roi sample_ref
           "box-1" sample_box (-1, -1, -1)).
  - reflexivity.
  - reflexivity.
  - reflexivity.
  - cbn. lia.
  - cbn. lia.
Defined.

(** ** What the crop keeps *)

Lemma py_slice_inside {A} (l : list A) lo hi :
  0 <= lo <= hi -> hi < Zlen l ->
  py_slice lo (hi + 1) l
  = firstn (Z.to_nat (hi - lo + 1)) (skipn (Z.to_nat lo) l).
Proof.
  intros Hlo Hhi. unfold py_slice, slice_bound.
  destruct (Z.ltb_spec lo 0); [lia|].
  destruct (Z.ltb_spec (hi + 1) 0); [lia|].
  rewrite !Z.min_l by lia. f_equal. lia.
Qed.

Lemma py_slice_length {A} (l : list A) lo hi :
  0 <= lo <= hi -> hi < Zlen l ->
  List.length (py_slice lo (hi + 1) l) = Z.to_nat (hi - lo + 1).
Proof.
  intros Hlo Hhi. rewrite py_slice_inside by trivial.
  rewrite length_firstn, length_skipn. unfold Zlen in Hhi. lia.
Qed.

Lemma py_slice_nth {A} (l : list A) lo hi i d :
  0 <= lo <= hi -> hi < Zlen l -> (i < Z.to_nat (hi - lo + 1))%nat ->
  nth i (py_slice lo (hi + 1) l) d = nth (Z.to_nat lo + i) l d.
Proof.
  intros Hlo Hhi Hi. rewrite py_slice_inside by trivial.
  rewrite nth_firstn. destruct (Nat.ltb_spec i (Z.to_nat (hi - lo + 1))); [|lia].
  apply nth_skipn.
Qed.

Lemma crop_rect {A} (v : array3 A) n0 n1 n2 b :
  rect3 v n0 n1 n2 ->
  box_inside (Z.of_nat n0, Z.of_nat n1, Z.of_nat n2) b ->
  rect3 (crop b v) (Z.to_nat (b01 b - b00 b + 1))
        (Z.to_nat (b11 b - b10 b + 1)) (Z.to_nat (b21 b - b20 b + 1)) /\
  forall i j k d,
    (i < Z.to_nat (b01 b - b00 b + 1))%nat ->
    (j < Z.to_nat (b11 b - b10 b + 1))%nat ->
    (k < Z.to_nat (b21 b - b20 b + 1))%nat ->
    item3 d (crop b v) i j k
    = item3 d v (Z.to_nat (b00 b) + i) (Z.to_nat (b10 b) + j)
            (Z.to_nat (b20 b) + k).
Proof.
  intros [Hlen Hplanes] (H0 & H1 & H2). unfold item3.
  assert (Hv : b01 b < Zlen v) by (unfold Zlen; lia).
  assert (Hplane : forall i, (i < Z.to_nat (b01 b - b00 b + 1))%nat ->
            nth i (crop b v) []
            = map (fun line => py_slice (b20 b) (b21 b + 1) line)
                  (py_slice (b10 b) (b11 b + 1)
                            (nth (Z.to_nat (b00 b) + i) v []))).
  { intros i Hi. unfold crop.
    rewrite (nth_map_lt _ _ _ _ []) by (rewrite py_slice_length; lia).
    now rewrite py_slice_nth by lia. }
  assert (Hp : forall i, (i < Z.to_nat (b01 b - b00 b + 1))%nat ->
            rect2 (nth (Z.to_nat (b00 b) + i) v []) n1 n2).
  { intros i Hi. apply Hplanes. lia. }
  assert (Hline : forall i j,
            (i < Z.to_nat (b01 b - b00 b + 1))%nat ->
            (j < Z.to_nat (b11 b - b10 b + 1))%nat ->
            nth j (nth i (crop b v) []) []
            = py_slice (b20 b) (b21 b + 1)
                (nth (Z.to_nat (b10 b) + j)
                     (nth (Z.to_nat (b00 b) + i) v []) [])).
  { intros i j Hi Hj. rewrite (Hplane i Hi). destruct (Hp i Hi) as [Hl _].
    rewrite (nth_map_lt _ _ _ _ [])
      by (rewrite py_slice_length; unfold Zlen; lia).
    now rewrite py_slice_nth by (unfold Zlen; lia). }
  split.
  - split.
    + unfold crop. rewrite length_map. apply py_slice_length; lia.
    + intros i Hi. destruct (Hp i Hi) as [Hl Hlines]. split.
      * rewrite (Hplane i Hi), length_map.
        apply py_slice_length; unfold Zlen; lia.
      * intros j Hj. rewrite (Hline i j Hi Hj).
        apply py_slice_length; [lia|]. unfold Zlen.
        rewrite (Hlines (Z.to_nat (b10 b) + j)%nat) by lia. lia.
  - intros i j k d Hi Hj Hk. rewrite (Hline i j Hi Hj).
    destruct (Hp i Hi) as [Hl Hlines].
    apply py_slice_nth; trivial; [lia|]. unfold Zlen.
    rewrite (Hlines (Z.to_nat (b10 b) + j)%nat) by lia. lia.
Qed.

(** X3.  When the box that [compute_box] crops to has a voxel on every
    axis and lies inside the two arrays, the returned arrays have the
    extents that the returned reference records as its [ImageSize], and
    the voxel [(i, j, k)] of each returned array is the voxel
    [(b00 + i, b10 + j, b20 + k)] of the array it was cut from. *)
Theorem compute_box_keeps_the_box :
  forall (A : Type) (im : imref_module) (fuel : nat) (vol : array3 A)
         (roi : array3 bool) (spatial_ref : imref3d) (box_string : string)
         (b : bbox) (n0 n1 n2 : nat),
    PyStr.contains "box" box_string = true ->
    final_box fuel vol roi box_string = Ok b ->
    rect3 vol n0 n1 n2 -> rect3 roi n0 n1 n2 ->
    box_inside (Z.of_nat n0, Z.of_nat n1, Z.of_nat n2) b ->
    exists vol' roi' new_spatial_ref s0 s1 s2,
      compute_box im fuel vol roi spatial_ref box_string
      = Ok (vol', roi', new_spatial_ref) /\
      ImageSize new_spatial_ref = (Z.of_nat s0, Z.of_nat s1, Z.of_nat s2) /\
      rect3 vol' s0 s1 s2 /\ rect3 roi' s0 s1 s2 /\
      forall i j k, (i < s0)%nat -> (j < s1)%nat -> (k < s2)%nat ->
        (forall d, item3 d vol' i j k
                   = item3 d vol (Z.to_nat (b00 b) + i) (Z.to_nat (b10 b) + j)
                           (Z.to_nat (b20 b) + k)) /\
        (forall d, item3 d roi' i j k
                   = item3 d roi (Z.to_nat (b00 b) + i) (Z.to_nat (b10 b) + j)
                           (Z.to_nat (b20 b) + k)).
Proof.
  intros A im fuel vol roi spatial_ref box_string b n0 n1 n2
         Hin Hb Hvol Hroi Hbox.
  destruct (crop_rect vol n0 n1 n2 b Hvol Hbox) as [Hrv Hiv].
  destruct (crop_rect roi n0 n1 n2 b Hroi Hbox) as [Hrr Hir].
  destruct (cropped_ref_fields im spatial_ref b) as (Hs & _).
  exists (crop b vol), (crop b roi), (cropped_ref im spatial_ref b),
    (Z.to_nat (b01 b - b00 b + 1)), (Z.to_nat (b11 b - b10 b + 1)),
    (Z.to_nat (b21 b - b20 b + 1)).
  split; [unfold compute_box; now rewrite Hin, Hb|].
  split.
  { rewrite Hs. destruct Hbox as (H0 & H1 & H2).
    rewrite size_box_ordered by lia.
    rewrite !Z2Nat.id by lia. reflexivity. }
  split; [exact Hrv|]. split; [exact Hrr|].
  intros i j k Hi Hj Hk. split; intros d; [now apply Hiv | now apply Hir].
Qed.

Lemma compute_box_keeps_the_box_witness :
  exists vol' roi' new_spatial_ref s0 s1 s2,
    compute_box spec_imref 5 sample_vol sample_roi sample_ref "box1"
    = Ok (vol', roi', new_spatial_ref) /\
    ImageSize new_spatial_ref = (Z.of_nat s0, Z.of_nat s1, Z.of_nat s2) /\
    rect3 vol' s0 s1 s2 /\ rect3 roi' s0 s1 s2 /\
    forall i j k, (i < s0)%nat -> (j < s1)%nat -> (k < s2)%nat ->
      (forall d, item3 d vol' i j k
                 = item3 d sample_vol (Z.to_nat 0 + i) (Z.to_nat 0 + j)
                         (Z.to_nat 0 + k)) /\
      (forall d, item3 d roi' i j k
                 = item3 d sample_roi (Z.to_nat 0 + i) (Z.to_nat 0 + j)
                         (Z.to_nat 0 + k)).
Proof.
  assert (Hrect : forall {A} (v : array3 A),
            List.length v = 3%nat ->
            Forall (fun p => List.length p = 3%nat
                             /\ Forall (fun l => List.length l = 4%nat) p) v ->
            rect3 v 3 3 4).
  { intros A v Hl Hall. split; [exact Hl|]. intros i Hi.
    assert (In (nth i v []) v) as Hin by (apply nth_In; lia).
    rewrite Forall_forall in Hall. destruct (Hall _ Hin) as [Hp Hlines].
    split; [exact Hp|]. intros j Hj. rewrite Forall_forall in Hlines.
    apply Hlines. apply nth_In. lia. }
  apply (compute_box_keeps_the_box Z spec_imref 5 sample_vol sample_roi
           sample_ref "box1" (mk_bbox 0 2 0 2 0 3) 3 3 4).
  - reflexivity.
  - reflexivity.
  - apply Hrect; [reflexivity|]. repeat constructor.
  - apply Hrect; [reflexivity|]. repeat constructor.
  - cbn. lia.
Defined.

(* ================================================================== *)
(** * Further properties of [get_polygon_mask] *)

Lemma get_polygon_mask_unfold roi_xyz spatial_ref orientation a b c :
  axes orientation = Ok (a, b, c) ->
  get_polygon_mask roi_xyz spatial_ref orientation
  = (roi_mask <- np_zeros (ImageSize spatial_ref) ;;
     for_each (contour_body roi_xyz spatial_ref a b c)
              (closed_contours roi_xyz) roi_mask).
Proof.
  intros Haxes. unfold get_polygon_mask. rewrite Haxes.
  now destruct (np_zeros (ImageSize spatial_ref)).
Qed.

Lemma for_each_fails {S X} (body : S -> X -> result S) x :
  (forall st, exists e, body st x = Err e) ->
  forall xs st, In x xs -> exists e, for_each body xs st = Err e.
Proof.
  intros Hx. induction xs as [|y xs IH]; intros st Hin; [contradiction|].
  cbn [for_each]. destruct Hin as [->|Hin].
  - destruct (Hx st) as (e & ->). now exists e.
  - destruct (body st y) as [st'|e]; cbn [bind]; [now apply IH | now exists e].
Qed.

Lemma resolve_index_outside n s :
  s < - n \/ n <= s -> resolve_index n s = Err IndexError.
Proof.
  intros Hs. unfold resolve_index.
  destruct (Z.leb_spec 0 s), (Z.ltb_spec s n); cbn [andb]; try lia;
    destruct (Z.leb_spec (- n) s), (Z.ltb_spec s 0); cbn [andb];
    try lia; reflexivity.
Qed.

(** the slice number is converted by [.astype(int)]: a number beyond the
    [int64] range indexes no slice of an array, whether it is taken as it
    is or as the [-2^63] that the conversion makes of it *)
Lemma resolve_index_int64 n z :
  0 <= n <= I64.max ->
  resolve_index n (I64.cast z) = resolve_index n z.
Proof.
  intros Hn. unfold I64.cast.
  destruct (I64.in_range z) eqn:Hz; [reflexivity|].
  unfold I64.in_range in Hz. apply andb_false_iff in Hz.
  rewrite Z.leb_gt, Z.leb_gt in Hz.
  rewrite !resolve_index_outside; trivial; i64; lia.
Qed.

(** ** Slices outside the volume *)

(** X4.  When some closed contour is assigned a slice [s] that is not an
    index of the third axis, [s >= ImageSize[2]] or [s < -ImageSize[2]],
    the call returns no mask; it ends in [IndexError] when that contour is
    the first one of the loop. *)
Theorem slice_outside_volume_fails :
  forall (roi_xyz : list contour_point) (spatial_ref : imref3d)
         (orientation : string) (a b c : nat) (c_c s : Z),
    axes orientation = Ok (a, b, c) ->
    In c_c (closed_contours roi_xyz) ->
    contour_slice roi_xyz spatial_ref c c_c = Ok s ->
    s < - snd (ImageSize spatial_ref) \/ snd (ImageSize spatial_ref) <= s ->
    (exists e, get_polygon_mask roi_xyz spatial_ref orientation = Err e) /\
    forall ids roi_mask,
      closed_contours roi_xyz = c_c :: ids ->
      np_zeros (ImageSize spatial_ref) = Ok roi_mask ->
      get_polygon_mask roi_xyz spatial_ref orientation = Err IndexError.
Proof.
  intros roi_xyz spatial_ref orientation a b c c_c s Haxes Hin Hslice Hout.
  assert (Hbody : forall m,
            contour_body roi_xyz spatial_ref a b c m c_c = Err IndexError).
  { intros m. rewrite contour_body_unfold, Hslice. cbn [bind].
    unfold or_into_slice.
    destruct (ImageSize spatial_ref) as [[n0 n1] n2]. cbn [snd] in Hout.
    now rewrite (resolve_index_outside n2 s Hout). }
  rewrite (get_polygon_mask_unfold _ _ _ a b c Haxes). split.
  - destruct (np_zeros (ImageSize spatial_ref)) as [m0|e]; cbn [bind];
      [|now exists e].
    apply for_each_fails with (x := c_c); trivial.
    intros st. exists IndexError. apply Hbody.
  - intros ids roi_mask Hids Hz. rewrite Hz, Hids. cbn [bind for_each].
    now rewrite Hbody.
Qed.

Lemma slice_outside_volume_fails_witness :
  (exists e, get_polygon_mask
               [mk_contour_point 0 0 (7 # 2) 0; mk_contour_point 1 0 (7 # 2) 0;
                mk_contour_point 0 1 (7 # 2) 0] cube_ref "Axial" = Err e) /\
  forall ids roi_mask,
    closed_contours
      [mk_contour_point 0 0 (7 # 2) 0; mk_contour_point 1 0 (7 # 2) 0;
       mk_contour_point 0 1 (7 # 2) 0] = 0 :: ids ->
    np_zeros (ImageSize cube_ref) = Ok roi_mask ->
    get_polygon_mask
      [mk_contour_point 0 0 (7 # 2) 0; mk_contour_point 1 0 (7 # 2) 0;
       mk_contour_point 0 1 (7 # 2) 0] cube_ref "Axial" = Err IndexError.
Proof.
  apply (slice_outside_volume_fails
           [mk_contour_point 0 0 (7 # 2) 0; mk_contour_point 1 0 (7 # 2) 0;
            mk_contour_point 0 1 (7 # 2) 0] cube_ref "Axial" 0 1 2 0 4).
  - reflexivity.
  - vm_compute. now left.
  - reflexivity.
  - cbn. lia.
Defined.

(** ** Adding contours *)

Lemma in_insert_unique x y l : In y (insert_unique x l) <-> y = x \/ In y l.
Proof.
  induction l as [|z t IH]; cbn.
  - intuition.
  - destruct (Z.ltb_spec x z); [cbn; intuition|].
    destruct (Z.eqb_spec x z) as [->|]; cbn; [intuition|].
    rewrite IH. intuition.
Qed.

Lemma in_np_unique x l : In x (np_unique l) <-> In x l.
Proof.
  induction l as [|y t IH]; cbn; [reflexivity|].
  rewrite in_insert_unique, IH. intuition.
Qed.

Lemma select_app {A} (i1 i2 : list bool) (x1 x2 : list A) :
  List.length i1 = List.length x1 ->
  select (i1 ++ i2) (x1 ++ x2) = select i1 x1 ++ select i2 x2.
Proof.
  unfold select. revert x1.
  induction i1 as [|v i1 IH]; intros [|x x1] Hlen; try discriminate.
  - reflexivity.
  - injection Hlen as Hlen. cbn [app combine filter fst].
    destruct v; cbn [map app]; now rewrite IH.
Qed.

Lemma select_none {A} (ind : list bool) (xs : list A) :
  Forall (fun v => v = false) ind -> select ind xs = [].
Proof.
  unfold select. revert xs.
  induction ind as [|v ind IH]; intros [|x xs] Hall; cbn; trivial.
  inversion Hall as [|? ? Hv Hrest]; subst. cbn. now apply IH.
Qed.

Lemma contour_rows_other extra c_c :
  (forall r, In r extra -> p_contour r <> c_c) ->
  Forall (fun v => v = false) (contour_rows extra c_c).
Proof.
  intros Hother. unfold contour_rows. apply Forall_map, Forall_forall.
  intros r Hr. apply Z.eqb_neq. now apply Hother.
Qed.

Lemma select_rows_app {B} (f : contour_point -> B) roi_xyz extra c_c :
  (forall r, In r extra -> p_contour r <> c_c) ->
  select (contour_rows (roi_xyz ++ extra) c_c) (map f (roi_xyz ++ extra))
  = select (contour_rows roi_xyz c_c) (map f roi_xyz).
Proof.
  intros Hother. unfold contour_rows at 1. rewrite !map_app.
  rewrite select_app by (now rewrite !length_map).
  fold (contour_rows roi_xyz c_c). fold (contour_rows extra c_c).
  rewrite (select_none (contour_rows extra c_c))
    by (now apply contour_rows_other).
  apply app_nil_r.
Qed.

Lemma contour_slice_app roi_xyz extra spatial_ref c c_c :
  (forall r, In r extra -> p_contour r <> c_c) ->
  contour_slice (roi_xyz ++ extra) spatial_ref c c_c
  = contour_slice roi_xyz spatial_ref c c_c.
Proof.
  intros Hother. unfold contour_slice, select_slice, rounded_slices,
    intrinsic_points.
  rewrite !map_map. now rewrite select_rows_app.
Qed.

Lemma contour_plane_app roi_xyz extra spatial_ref a b c_c :
  (forall r, In r extra -> p_contour r <> c_c) ->
  contour_plane (roi_xyz ++ extra) spatial_ref a b c_c
  = contour_plane roi_xyz spatial_ref a b c_c.
Proof.
  intros Hother. unfold contour_plane, intrinsic_points. cbn zeta.
  rewrite !map_map. now rewrite !select_rows_app.
Qed.

Lemma contour_sets_app roi_xyz extra spatial_ref a b c i j k c_c :
  (forall r, In r extra -> p_contour r <> c_c) ->
  contour_sets (roi_xyz ++ extra) spatial_ref a b c i j k c_c
  = contour_sets roi_xyz spatial_ref a b c i j k c_c.
Proof.
  intros Hother. unfold contour_sets, contour_slot.
  now rewrite contour_slice_app, contour_plane_app.
Qed.

Lemma closed_contours_in roi_xyz c_c :
  In c_c (closed_contours roi_xyz) <-> In c_c (map p_contour roi_xyz).
Proof. apply in_np_unique. Qed.

(** X6.  Adding the points of further closed contours, numbered
    differently from the ones already there, only adds set voxels: for a
    valid orientation, equal first two extents and slices that the third
    axis accepts, both calls return a mask, and every voxel set for the
    smaller point set is set for the larger one. *)
Theorem more_contours_set_more_voxels :
  forall (roi_xyz extra : list contour_point) (spatial_ref : imref3d)
         (orientation : string) (a b c n n2 : nat),
    axes orientation = Ok (a, b, c) ->
    ImageSize spatial_ref = (Z.of_nat n, Z.of_nat n, Z.of_nat n2) ->
    (forall r r', In r extra -> In r' roi_xyz -> p_contour r <> p_contour r') ->
    (forall c_c, In c_c (closed_contours (roi_xyz ++ extra)) ->
       exists s, contour_slot (roi_xyz ++ extra) spatial_ref c c_c = Ok s) ->
    exists m m',
      get_polygon_mask roi_xyz spatial_ref orientation = Ok m /\
      get_polygon_mask (roi_xyz ++ extra) spatial_ref orientation = Ok m' /\
      forall i j k, (i < n)%nat -> (j < n)%nat -> (k < n2)%nat ->
        voxel m i j k = true -> voxel m' i j k = true.
Proof.
  intros roi_xyz extra spatial_ref orientation a b c n n2
         Haxes Hsize Hnew Hslots.
  assert (Hold : forall c_c, In c_c (closed_contours roi_xyz) ->
            forall r, In r extra -> p_contour r <> c_c).
  { intros c_c Hin r Hr. apply closed_contours_in, in_map_iff in Hin.
    destruct Hin as (r' & <- & Hr'). now apply Hnew. }
  assert (Hsub : forall c_c, In c_c (closed_contours roi_xyz) ->
            In c_c (closed_contours (roi_xyz ++ extra))).
  { intros c_c Hin. apply closed_contours_in. rewrite map_app.
    apply in_or_app. left. now apply closed_contours_in. }
  destruct (get_polygon_mask_run (roi_xyz ++ extra) spatial_ref a b c n n2
              Hsize orientation Haxes Hslots) as (m' & Hrun' & _ & Hvox').
  destruct (get_polygon_mask_run roi_xyz spatial_ref a b c n n2
              Hsize orientation Haxes) as (m & Hrun & _ & Hvox).
  { intros c_c Hin. destruct (Hslots c_c (Hsub c_c Hin)) as (s & Hs).
    exists s. unfold contour_slot in *.
    now rewrite <- (contour_slice_app roi_xyz extra) by (now apply Hold). }
  exists m, m'. split; [exact Hrun|]. split; [exact Hrun'|].
  intros i j k Hi Hj Hk. rewrite (Hvox i j k Hi Hj Hk), (Hvox' i j k Hi Hj Hk).
  intros Hset. apply existsb_exists in Hset as (c_c & Hin & Hc).
  apply existsb_exists. exists c_c. split; [now apply Hsub|].
  now rewrite contour_sets_app by (now apply Hold).
Qed.

Lemma more_contours_set_more_voxels_witness :
  exists m m',
    get_polygon_mask below_volume cube_ref "Axial" = Ok m /\
    get_polygon_mask (below_volume ++ straddling) cube_ref "Axial" = Ok m' /\
    forall i j k, (i < 3)%nat -> (j < 3)%nat -> (k < 3)%nat ->
      voxel m i j k = true -> voxel m' i j k = true.
Proof.
  apply (more_contours_set_more_voxels
           below_volume straddling cube_ref "Axial" 0 1 2 3 3).
  - reflexivity.
  - reflexivity.
  - intros r r' Hr Hr'. cbn in Hr, Hr'.
    repeat (destruct Hr as [<-|Hr]; [
      repeat (destruct Hr' as [<-|Hr']; [discriminate|]); contradiction |]).
    contradiction.
  - intros c_c Hin. vm_compute in Hin.
    destruct Hin as [<-|[<-|[]]]; eexists; vm_compute; reflexivity.
Defined.

(* ================================================================== *)
(** * Properties of [process_dicom_scan_files] *)

(** ** Orientation of the scan *)

Lemma list_get_inside {A} (l : list A) i :
  0 <= i < Zlen l ->
  exists x, list_get l i = Returns x /\ nth_error l (Z.to_nat i) = Some x.
Proof.
  intros Hi. unfold list_get.
  destruct (Z.ltb_spec i 0); [lia|].
  destruct (Z.leb_spec 0 i); [|lia]. destruct (Z.ltb_spec i (Zlen l)); [|lia].
  cbn [andb].
  destruct (nth_error l (Z.to_nat i)) as [x|] eqn:Hx; [now exists x|].
  apply nth_error_None in Hx. unfold Zlen in Hi. lia.
Qed.

Lemma list_get_outside {A} (l : list A) i :
  Zlen l <= i -> list_get l i = Raises ListIndexError.
Proof.
  intros Hi. unfold list_get. unfold Zlen in *.
  destruct (Z.ltb_spec i 0); [lia|].
  destruct (Z.leb_spec 0 i); [|lia].
  destruct (Z.ltb_spec i (Z.of_nat (List.length l))); [lia|]. reflexivity.
Qed.

(** the orientation chosen from the three steps *)
Lemma orientation_of_steps (d0 d1 d2 : Q) :
  exists index,
    (largest <~ py_max [d0; d1; d2] ;; py_index largest [d0; d1; d2])
    = Returns index /\
    (index = 0 <-> (d1 <= d0 /\ d2 <= d0)%Q) /\
    (index = 1 <-> (d0 < d1 /\ d2 <= d1)%Q) /\
    (index = 2 <-> (d0 < d2 /\ d1 < d2)%Q) /\
    (index = 0 \/ index = 1 \/ index = 2).
Proof.
  cbn [py_max fold_left and_then]. unfold Qlt_bool.
  assert (Hle : forall x y, Qle_bool x y = true <-> (x <= y)%Q)
    by (intros; apply Qle_bool_iff).
  assert (Heq : forall x y, Qeq_bool x y = true <-> (x == y)%Q)
    by (intros; apply Qeq_bool_iff).
  destruct (Qle_bool d1 d0) eqn:H10; cbn [negb].
  - apply Hle in H10.
    destruct (Qle_bool d2 d0) eqn:H20; cbn [negb].
    + apply Hle in H20. exists 0. cbn [py_index].
      rewrite (proj2 (Heq d0 d0)) by reflexivity.
      split; [reflexivity|]. repeat split; try lia; try tauto;
        intros [Ha Hb]; exfalso; lra.
    + assert (d0 < d2)%Q as H02.
      { apply Qnot_le_lt. intros H. apply Hle in H. congruence. }
      exists 2. cbn [py_index].
      destruct (Qeq_bool d0 d2) eqn:E0; [apply Heq in E0; exfalso; lra|].
      destruct (Qeq_bool d1 d2) eqn:E1; [apply Heq in E1; exfalso; lra|].
      rewrite (proj2 (Heq d2 d2)) by reflexivity. cbn [and_then].
      split; [reflexivity|]. repeat split; try lia; try tauto;
        try (intros [Ha Hb]; exfalso; lra); lra.
  - assert (d0 < d1)%Q as H01.
    { apply Qnot_le_lt. intros H. apply Hle in H. congruence. }
    destruct (Qle_bool d2 d1) eqn:H21; cbn [negb].
    + apply Hle in H21. exists 1. cbn [py_index].
      destruct (Qeq_bool d0 d1) eqn:E0; [apply Heq in E0; exfalso; lra|].
      rewrite (proj2 (Heq d1 d1)) by reflexivity. cbn [and_then].
      split; [reflexivity|]. repeat split; try lia; try tauto;
        try (intros [Ha Hb]; exfalso; lra); lra.
    + assert (d1 < d2)%Q as H12.
      { apply Qnot_le_lt. intros H. apply Hle in H. congruence. }
      exists 2. cbn [py_index].
      destruct (Qeq_bool d0 d2) eqn:E0; [apply Heq in E0; exfalso; lra|].
      destruct (Qeq_bool d1 d2) eqn:E1; [apply Heq in E1; exfalso; lra|].
      rewrite (proj2 (Heq d2 d2)) by reflexivity. cbn [and_then].
      split; [reflexivity|]. repeat split; try lia; try tauto;
        try (intros [Ha Hb]; exfalso; lra); lra.
Qed.

(** the slices [mid + 1] and [mid] exist exactly when there are four
    slices or more *)
Lemma middle_slices (positions : list (Q * Q * Q)) :
  let mid := Np.round (inject_Z (Zlen positions) / 2) in
  (Zlen positions < 4 -> Zlen positions <= mid + 1) /\
  (4 <= Zlen positions -> 0 <= mid /\ mid + 1 < Zlen positions).
Proof.
  intros mid. pose proof (round_half_bounds (Zlen positions)) as Hm.
  fold mid in Hm. split; intros Hn; [|lia].
  assert (0 <= Zlen positions) by (unfold Zlen; lia).
  assert (Zlen positions = 0 \/ Zlen positions = 1 \/ Zlen positions = 2
          \/ Zlen positions = 3) as Hc by lia.
  unfold mid.
  destruct Hc as [H0|[H0|[H0|H0]]]; rewrite H0; vm_compute; discriminate.
Qed.

Lemma scan_orientation_steps (positions : list (Q * Q * Q)) next here :
  let mid := Np.round (inject_Z (Zlen positions) / 2) in
  list_get positions (mid + 1) = Returns next ->
  list_get positions mid = Returns here ->
  exists index,
    scan_orientation positions
    = Returns (if index =? 0 then "Sagittal"%string
               else if index =? 1 then "Coronal"%string
               else "Axial"%string) /\
    (index = 0 <-> (step_along 1 next here <= step_along 0 next here /\
                    step_along 2 next here <= step_along 0 next here)%Q) /\
    (index = 1 <-> (step_along 0 next here < step_along 1 next here /\
                    step_along 2 next here <= step_along 1 next here)%Q) /\
    (index = 2 <-> (step_along 0 next here < step_along 2 next here /\
                    step_along 1 next here < step_along 2 next here)%Q) /\
    (index = 0 \/ index = 1 \/ index = 2).
Proof.
  intros mid Hnext Hhere.
  destruct (orientation_of_steps (step_along 0 next here)
              (step_along 1 next here) (step_along 2 next here))
    as (index & Hrun & Hrest).
  exists index. split; [|exact Hrest].
  unfold scan_orientation. fold mid. rewrite Hnext. cbn [and_then].
  rewrite Hhere. cbn [and_then].
  unfold step_along in Hrun.
  destruct (py_max _) as [largest|e] eqn:Hmax; [|discriminate].
  cbn [and_then] in Hrun |- *. rewrite Hrun. reflexivity.
Qed.

Lemma scan_orientation_returned (positions : list (Q * Q * Q)) o :
  scan_orientation positions = Returns o ->
  exists next here,
    list_get positions (Np.round (inject_Z (Zlen positions) / 2) + 1)
    = Returns next /\
    list_get positions (Np.round (inject_Z (Zlen positions) / 2))
    = Returns here.
Proof.
  unfold scan_orientation. intros H.
  destruct (list_get positions (_ + 1)) as [next|e]; [|discriminate].
  cbn [and_then] in H.
  destruct (list_get positions _) as [here|e]; [|discriminate].
  now exists next, here.
Qed.

(** X7. The orientation of a scan is read from the slices [mid + 1] and
    [mid] with [mid = round(n_slices / 2)]: with fewer than four slices
    (three included, as 1.5 rounds to 2) the lookup [dicom_hi[mid+1]] is
    out of range and raises IndexError; with four or more it gives one of
    the three orientations. *)
Theorem scan_orientation_needs_four_slices (positions : list (Q * Q * Q)) :
  (Zlen positions < 4 ->
   scan_orientation positions = Raises ListIndexError) /\
  (4 <= Zlen positions ->
   exists o, scan_orientation positions = Returns o /\
             In o ["Sagittal"; "Coronal"; "Axial"]%string).
Proof.
  destruct (middle_slices positions) as [Hfew Hmany]. split; intros Hn.
  - unfold scan_orientation.
    rewrite list_get_outside by (apply Hfew; exact Hn). reflexivity.
  - destruct (Hmany Hn) as [H0 H1].
    destruct (list_get_inside positions
                (Np.round (inject_Z (Zlen positions) / 2) + 1))
      as (next & Hnext & _); [lia|].
    destruct (list_get_inside positions
                (Np.round (inject_Z (Zlen positions) / 2)))
      as (here & Hhere & _); [lia|].
    destruct (scan_orientation_steps positions next here Hnext Hhere)
      as (index & Hrun & _ & _ & _ & Hidx).
    eexists. split; [exact Hrun|].
    destruct Hidx as [ -> | [ -> | -> ] ]; cbn; auto.
Qed.

(** X8. The orientation returned is the patient axis along which the
    slices [mid] and [mid + 1] are furthest apart, a tie going to the
    earlier axis: Sagittal when the x step is at least the two others,
    Coronal when the y step exceeds the x step and is at least the z step,
    Axial when the z step exceeds both. *)
Theorem scan_orientation_largest_step (positions : list (Q * Q * Q)) o :
  scan_orientation positions = Returns o ->
  exists next here,
    list_get positions (Np.round (inject_Z (Zlen positions) / 2) + 1)
    = Returns next /\
    list_get positions (Np.round (inject_Z (Zlen positions) / 2))
    = Returns here /\
    (o = "Sagittal"%string <->
     (step_along 1 next here <= step_along 0 next here /\
      step_along 2 next here <= step_along 0 next here)%Q) /\
    (o = "Coronal"%string <->
     (step_along 0 next here < step_along 1 next here /\
      step_along 2 next here <= step_along 1 next here)%Q) /\
    (o = "Axial"%string <->
     (step_along 0 next here < step_along 2 next here /\
      step_along 1 next here < step_along 2 next here)%Q).
Proof.
  intros Hrun.
  destruct (scan_orientation_returned positions o Hrun)
    as (next & here & Hnext & Hhere).
  exists next, here. split; [exact Hnext|]. split; [exact Hhere|].
  destruct (scan_orientation_steps positions next here Hnext Hhere)
    as (index & Hrun' & H0 & H1 & H2 & Hidx).
  rewrite Hrun in Hrun'. injection Hrun' as Ho. subst o.
  destruct Hidx as [ -> | [ -> | -> ] ]; cbn [Z.eqb Pos.eqb];
    (split; [|split]); split;
    try discriminate; try reflexivity;
    try (intros _; first [apply H0|apply H1|apply H2]; reflexivity);
    intros H;
    first [apply H0 in H|apply H1 in H|apply H2 in H]; discriminate.
Qed.

Lemma scan_orientation_largest_step_witness :
  scan_orientation axial_positions = Returns "Axial"%string /\
  exists next here,
    list_get axial_positions
      (Np.round (inject_Z (Zlen axial_positions) / 2) + 1) = Returns next /\
    list_get axial_positions
      (Np.round (inject_Z (Zlen axial_positions) / 2)) = Returns here /\
    ("Axial"%string = "Sagittal"%string <->
     (step_along 1 next here <= step_along 0 next here /\
      step_along 2 next here <= step_along 0 next here)%Q) /\
    ("Axial"%string = "Coronal"%string <->
     (step_along 0 next here < step_along 1 next here /\
      step_along 2 next here <= step_along 1 next here)%Q) /\
    ("Axial"%string = "Axial"%string <->
     (step_along 0 next here < step_along 2 next here /\
      step_along 1 next here < step_along 2 next here)%Q).
Proof.
  split; [reflexivity|].
  apply (scan_orientation_largest_step axial_positions "Axial").
  reflexivity.
Defined.

(** X9. Every orientation [process_dicom_scan_files] stores is one
    [get_polygon_mask] accepts, and the slice coordinate [c] it selects
    for that orientation is the patient axis of the largest step between
    the two middle slices. *)
Theorem scan_orientation_accepted_by_axes (positions : list (Q * Q * Q)) o :
  scan_orientation positions = Returns o ->
  exists a b c next here,
    axes o = Ok (a, b, c) /\
    list_get positions (Np.round (inject_Z (Zlen positions) / 2) + 1)
    = Returns next /\
    list_get positions (Np.round (inject_Z (Zlen positions) / 2))
    = Returns here /\
    (step_along a next here <= step_along c next here)%Q /\
    (step_along b next here <= step_along c next here)%Q.
Proof.
  intros Hrun.
  destruct (scan_orientation_returned positions o Hrun)
    as (next & here & Hnext & Hhere).
  destruct (scan_orientation_steps positions next here Hnext Hhere)
    as (index & Hrun' & H0 & H1 & H2 & Hidx).
  rewrite Hrun in Hrun'. injection Hrun' as Ho. subst o.
  destruct Hidx as [ -> | [ -> | -> ] ]; cbn [Z.eqb Pos.eqb].
  - exists 1%nat, 2%nat, 0%nat, next, here.
    destruct (proj1 H0 eq_refl) as [Ha Hb]. now repeat split.
  - exists 0%nat, 2%nat, 1%nat, next, here.
    destruct (proj1 H1 eq_refl) as [Ha Hb].
    repeat split; trivial. apply Qlt_le_weak, Ha.
  - exists 0%nat, 1%nat, 2%nat, next, here.
    destruct (proj1 H2 eq_refl) as [Ha Hb].
    repeat split; trivial; apply Qlt_le_weak; trivial.
Qed.

Lemma scan_orientation_accepted_by_axes_witness :
  scan_orientation axial_positions = Returns "Axial"%string /\
  exists a b c next here,
    axes "Axial" = Ok (a, b, c) /\
    list_get axial_positions
      (Np.round (inject_Z (Zlen axial_positions) / 2) + 1) = Returns next /\
    list_get axial_positions
      (Np.round (inject_Z (Zlen axial_positions) / 2)) = Returns here /\
    (step_along a next here <= step_along c next here)%Q /\
    (step_along b next here <= step_along c next here)%Q.
Proof.
  split; [reflexivity|].
  apply (scan_orientation_accepted_by_axes axial_positions "Axial").
  reflexivity.
Defined.

(** ** Point array of an ROI *)

Lemma length_rows_of_three (pts : list Q) :
  Z.of_nat (List.length (rows_of_three pts)) = Zlen pts / 3.
Proof.
  assert (H : forall n pts, (List.length pts <= n)%nat ->
              Z.of_nat (List.length (rows_of_three pts)) = Zlen pts / 3).
  { clear pts. induction n as [|n IH]; intros pts Hn.
    - destruct pts; [reflexivity|cbn in Hn; lia].
    - destruct pts as [|x [|y [|z t]]]; try reflexivity.
      cbn [rows_of_three List.length].
      rewrite Nat2Z.inj_succ, IH by (cbn in Hn; lia).
      unfold Zlen. cbn [List.length].
      replace (Z.of_nat (S (S (S (List.length t)))))
        with (Z.of_nat (List.length t) + 1 * 3) by lia.
      rewrite Z.div_add by lia. lia. }
  apply (H (List.length pts)). lia.
Qed.

Lemma rows_of_three_columns (pts : list Q) :
  map (fun r => (p_x r, p_y r, p_z r)) (contour_block 0 pts)
  = rows_of_three pts.
Proof.
  unfold contour_block. rewrite map_map. cbn [p_x p_y p_z].
  induction (rows_of_three pts) as [|[[x y] z] t IH]; [reflexivity|].
  cbn [map column]. now rewrite IH.
Qed.

Lemma contour_block_columns s (pts : list Q) :
  map (fun r => (p_x r, p_y r, p_z r)) (contour_block s pts)
  = rows_of_three pts.
Proof.
  rewrite <- (rows_of_three_columns pts). unfold contour_block.
  rewrite !map_map. reflexivity.
Qed.

Lemma contour_block_numbers s (pts : list Q) :
  map p_contour (contour_block s pts)
  = repeat s (Z.to_nat (Zlen pts / 3)).
Proof.
  rewrite <- length_rows_of_three, Nat2Z.id. unfold contour_block.
  rewrite map_map. cbn [p_contour].
  induction (rows_of_three pts) as [|r t IH]; [reflexivity|].
  cbn [map List.length repeat]. now rewrite IH.
Qed.

Lemma whole_points_length pts_temp :
  whole_points pts_temp ->
  py_len pts_temp = Returns (Zlen (values pts_temp)) /\
  Zlen (values pts_temp) = 3 * (Zlen (values pts_temp) / 3) /\
  0 < Zlen (values pts_temp) / 3.
Proof.
  destruct pts_temp as [|x|x y rest]; cbn [whole_points]; try contradiction.
  intros Hwhole. split; [reflexivity|].
  assert (Zlen (values (MultiValue x y rest))
          = 3 * (Zlen (values (MultiValue x y rest)) / 3)) as Hdiv
    by (apply Z.div_exact; lia).
  split; [exact Hdiv|].
  assert (2 <= Zlen (values (MultiValue x y rest)))
    by (unfold Zlen; cbn [values List.length]; lia).
  lia.
Qed.

Lemma contour_block_not_nil s pts_temp :
  whole_points pts_temp -> contour_block s (values pts_temp) <> [].
Proof.
  intros Hwhole Hnil.
  destruct (whole_points_length _ Hwhole) as (_ & _ & Hpos).
  pose proof (length_rows_of_three (values pts_temp)) as Hlen.
  unfold contour_block in Hnil. apply map_eq_nil in Hnil.
  rewrite Hnil in Hlen. cbn in Hlen. lia.
Qed.

(** one turn of the loop over the closed contours *)
Lemma add_contour_whole points ind s pts_temp :
  whole_points pts_temp ->
  add_contour points ind s pts_temp
  = Returns
      (Some (match points with Some p => p | None => [] end
             ++ rows_of_three (values pts_temp)),
       ind ++ repeat s (Z.to_nat (Zlen (values pts_temp) / 3))).
Proof.
  intros Hwhole.
  destruct (whole_points_length _ Hwhole) as (Hlen & Hdiv & Hpos).
  unfold add_contour, reshape_points. rewrite Hlen. cbn [and_then].
  destruct (Z.ltb_spec 0 (Zlen (values pts_temp))); [|lia].
  destruct (Z.eqb_spec (Zlen (values pts_temp) / 3 * 3)
                       (Zlen (values pts_temp))); [|lia].
  cbn [and_then]. destruct points; reflexivity.
Qed.

Lemma add_contour_fault points ind s pts_temp :
  ~ whole_points pts_temp ->
  add_contour points ind s pts_temp = Raises (fault_of pts_temp).
Proof.
  intros Hwhole. destruct pts_temp as [|x|x y rest]; try reflexivity.
  cbn [whole_points] in Hwhole.
  unfold add_contour, reshape_points. cbn [py_len and_then fault_of].
  destruct (Z.ltb_spec 0 (Zlen (values (MultiValue x y rest)))) as [_|Hz];
    [|unfold Zlen in Hz; cbn [values List.length] in Hz; lia].
  destruct (Z.eqb_spec (Zlen (values (MultiValue x y rest)) / 3 * 3)
                       (Zlen (values (MultiValue x y rest)))) as [He|];
    [|reflexivity].
  exfalso. apply Hwhole. rewrite <- He. apply Z.mod_mul. lia.
Qed.

(** the loop ends at the first contour whose data is not a sequence of
    whole points *)
Lemma add_contours_fault contours :
  forall k pts_temp s points ind,
    nth_error contours k = Some pts_temp ->
    Forall whole_points (firstn k contours) ->
    ~ whole_points pts_temp ->
    add_contours s contours points ind = Raises (fault_of pts_temp).
Proof.
  induction contours as [|c rest IH]; intros k pts_temp s points ind Hk Hbefore Hnot;
    [destruct k; discriminate|].
  cbn [add_contours]. destruct k as [|k].
  - injection Hk as ->. now rewrite add_contour_fault.
  - cbn [nth_error firstn] in Hk, Hbefore.
    inversion Hbefore as [|? ? Hc Hrest]; subst.
    rewrite add_contour_whole by exact Hc. cbn [and_then].
    now apply (IH k).
Qed.

Lemma gathered_points_app acc block :
  block <> [] ->
  gathered_points (acc ++ block)
  = Some (match gathered_points acc with Some p => p | None => [] end
          ++ map (fun r => (p_x r, p_y r, p_z r)) block).
Proof.
  intros Hblock. destruct acc as [|r acc].
  - cbn [app gathered_points]. destruct block; [contradiction|reflexivity].
  - cbn [app gathered_points]. now rewrite <- map_app.
Qed.

Lemma add_contours_whole contours :
  forall s acc,
    Forall whole_points contours ->
    add_contours s contours (gathered_points acc) (map p_contour acc)
    = Returns (gathered_points (acc ++ contour_blocks s contours),
               map p_contour (acc ++ contour_blocks s contours)).
Proof.
  induction contours as [|pts rest IH]; intros s acc Hwhole.
  - cbn [add_contours contour_blocks]. now rewrite app_nil_r.
  - inversion Hwhole as [|? ? Hpts Hrest]; subst.
    cbn [add_contours contour_blocks].
    rewrite add_contour_whole by exact Hpts.
    rewrite app_assoc. rewrite <- (IH (s + 1) _ Hrest). cbn [and_then].
    rewrite (gathered_points_app acc _ (contour_block_not_nil s pts Hpts)).
    rewrite contour_block_columns.
    now rewrite map_app, contour_block_numbers.
Qed.

Lemma zip_rows_numbers acc :
  zip_with (fun row s => mk_contour_point (column 0 row) (column 1 row)
                                          (column 2 row) s)
           (map (fun r => (p_x r, p_y r, p_z r)) acc) (map p_contour acc)
  = acc.
Proof.
  unfold zip_with. induction acc as [|[x y z c] t IH]; [reflexivity|].
  cbn [map combine fst snd column p_x p_y p_z p_contour]. now rewrite IH.
Qed.

Lemma with_contour_column_gathered acc :
  with_contour_column (gathered_points acc) (map p_contour acc)
  = match acc with [] => Raises CannotConcatenate | _ => Returns acc end.
Proof.
  destruct acc as [|r0 acc0]; [reflexivity|].
  unfold gathered_points, with_contour_column.
  rewrite !length_map, Nat.eqb_refl, zip_rows_numbers. reflexivity.
Qed.

Lemma contour_blocks_not_nil contours :
  forall s, Forall whole_points contours -> contours <> [] ->
            contour_blocks s contours <> [].
Proof.
  intros s Hwhole Hne. destruct contours as [|pts rest]; [contradiction|].
  inversion Hwhole as [|? ? Hpts Hrest]; subst.
  cbn [contour_blocks]. intros H. apply app_eq_nil in H.
  destruct H as [H _]. now apply (contour_block_not_nil s pts Hpts).
Qed.

Lemma whole_points_dec pts_temp :
  {whole_points pts_temp} + {~ whole_points pts_temp}.
Proof.
  destruct pts_temp as [|x|x y rest]; cbn [whole_points];
    [right; tauto | right; tauto | apply Z.eq_dec].
Qed.

(** the contours are all sequences of whole points, or one of them is
    the first that is not *)
Lemma first_fault contours :
  Forall whole_points contours \/
  exists k pts_temp,
    nth_error contours k = Some pts_temp /\
    Forall whole_points (firstn k contours) /\ ~ whole_points pts_temp.
Proof.
  induction contours as [|c rest IH]; [left; constructor|].
  destruct (whole_points_dec c) as [Hc|Hc].
  - destruct IH as [Hall|(k & pts_temp & Hk & Hbefore & Hnot)].
    + left. now constructor.
    + right. exists (S k), pts_temp. cbn [nth_error firstn].
      repeat split; trivial. now constructor.
  - right. exists 0%nat, c. repeat split; trivial.
Qed.

(** X10. The point array gathered for an ROI (lines 210-236), for every
    sequence of [ContourData] values.  The loop ends in an exception at
    the first contour whose data is not a sequence of whole points: the
    [TypeError] of [len] on line 217 when the data is [None] (an element
    without a value) or a single number, the error of the reshape when the
    sequence has a length that is not a multiple of 3.  Without a contour,
    [points] is still the Python list and the final [np.concatenate]
    raises.  Otherwise the array holds, contour after contour, the rows of
    three coordinates of each contour followed by the contour's position
    [s] in the sequence. *)
Theorem roi_point_array_outcome (contours : list contour_data) :
  (forall k pts_temp,
      nth_error contours k = Some pts_temp ->
      Forall whole_points (firstn k contours) ->
      ~ whole_points pts_temp ->
      roi_point_array contours = Raises (fault_of pts_temp)) /\
  (contours = [] -> roi_point_array contours = Raises CannotConcatenate) /\
  (Forall whole_points contours -> contours <> [] ->
   roi_point_array contours = Returns (contour_blocks 0 contours)).
Proof.
  unfold roi_point_array. split; [|split].
  - intros k pts_temp Hk Hbefore Hnot.
    now rewrite (add_contours_fault contours k pts_temp).
  - intros ->. reflexivity.
  - intros Hwhole Hsome.
    pose proof (add_contours_whole contours 0 [] Hwhole) as Hrun.
    cbn [gathered_points map app] in Hrun. rewrite Hrun. cbn [and_then].
    rewrite with_contour_column_gathered.
    destruct (contour_blocks 0 contours) eqn:Hb; [|reflexivity].
    exfalso. now apply (contour_blocks_not_nil contours 0 Hwhole Hsome).
Qed.

(** a contour without data between two contours of three points: [len]
    raises on line 217 and no array is stored *)
Example roi_point_array_empty_contour :
  roi_point_array [MultiValue 0 0 [5; 1; 0; 5; 0; 1; 5]%Q; NoValue;
                   MultiValue 2 2 [6; 3; 2; 6; 2; 3; 6]%Q]
  = Raises HasNoLen.
Proof. reflexivity. Qed.

Lemma roi_point_array_returned contours rows :
  roi_point_array contours = Returns rows ->
  Forall whole_points contours /\ rows = contour_blocks 0 contours.
Proof.
  intros Hrun.
  destruct (roi_point_array_outcome contours) as (Hfault & Hnone & Hsome).
  destruct (first_fault contours) as [Hwhole|(k & pts_temp & Hk & Hb & Hn)];
    [|rewrite (Hfault k pts_temp Hk Hb Hn) in Hrun; discriminate].
  split; [exact Hwhole|].
  destruct contours as [|c rest].
  - rewrite (Hnone eq_refl) in Hrun. discriminate.
  - rewrite Hsome in Hrun by (trivial; discriminate). congruence.
Qed.

Lemma contour_blocks_numbers contours :
  forall s r, In r (contour_blocks s contours) -> s <= p_contour r.
Proof.
  induction contours as [|pts rest IH]; intros s r Hin; [contradiction|].
  cbn [contour_blocks] in Hin. apply in_app_or in Hin.
  destruct Hin as [Hin|Hin].
  - unfold contour_block in Hin. apply in_map_iff in Hin.
    destruct Hin as (row & <- & _). cbn. lia.
  - apply IH in Hin. lia.
Qed.

Lemma insert_repeated s U k :
  Forall (fun y => s < y) U ->
  fold_right insert_unique U (repeat s (S k)) = s :: U.
Proof.
  intros Habove. induction k as [|k IH].
  - cbn. destruct U as [|y t]; [reflexivity|].
    inversion Habove; subst. cbn.
    destruct (Z.ltb_spec s y); [reflexivity|lia].
  - change (repeat s (S (S k))) with (s :: repeat s (S k)).
    cbn [fold_right]. rewrite IH. cbn.
    rewrite Z.ltb_irrefl, Z.eqb_refl. reflexivity.
Qed.

Lemma closed_contours_blocks contours :
  forall s, Forall whole_points contours ->
            closed_contours (contour_blocks s contours)
            = map (fun k => s + Z.of_nat k) (seq 0 (List.length contours)).
Proof.
  induction contours as [|pts rest IH]; intros s Hwhole; [reflexivity|].
  inversion Hwhole as [|? ? Hpts Hrest]; subst.
  cbn [contour_blocks List.length seq map]. unfold closed_contours, np_unique.
  rewrite map_app, fold_right_app.
  fold (np_unique (map p_contour (contour_blocks (s + 1) rest))).
  fold (closed_contours (contour_blocks (s + 1) rest)).
  assert (Forall (fun y => s < y)
                 (closed_contours (contour_blocks (s + 1) rest))) as Habove.
  { apply Forall_forall. intros y Hy. apply closed_contours_in in Hy.
    apply in_map_iff in Hy. destruct Hy as (r & <- & Hr).
    apply contour_blocks_numbers in Hr. lia. }
  rewrite contour_block_numbers.
  destruct (whole_points_length _ Hpts) as (_ & _ & Hpos).
  destruct (Z.to_nat (Zlen (values pts) / 3)) as [|k] eqn:Hk; [lia|].
  rewrite insert_repeated by exact Habove. rewrite IH by exact Hrest.
  rewrite Z.add_0_r. f_equal.
  rewrite <- seq_shift, map_map. apply map_ext. intros i. lia.
Qed.

Lemma select_all_rows s (pts : list Q) :
  select (contour_rows (contour_block s pts) s) (contour_block s pts)
  = contour_block s pts.
Proof.
  unfold contour_rows, contour_block, select. rewrite map_map.
  cbn [p_contour]. rewrite Z.eqb_refl.
  induction (rows_of_three pts) as [|r t IH]; [reflexivity|].
  cbn [map combine filter fst snd]. now rewrite IH.
Qed.

Lemma select_blocks contours :
  forall s0 k pts,
    nth_error contours k = Some pts ->
    select (contour_rows (contour_blocks s0 contours) (s0 + Z.of_nat k))
           (contour_blocks s0 contours)
    = contour_block (s0 + Z.of_nat k) (values pts).
Proof.
  induction contours as [|c rest IH]; intros s0 k pts Hk;
    [destruct k; discriminate|].
  cbn [contour_blocks]. unfold contour_rows. rewrite map_app.
  rewrite select_app by (now rewrite length_map).
  fold (contour_rows (contour_block s0 (values c)) (s0 + Z.of_nat k)).
  fold (contour_rows (contour_blocks (s0 + 1) rest) (s0 + Z.of_nat k)).
  destruct k as [|k].
  - injection Hk as ->. cbn [Z.of_nat]. rewrite Z.add_0_r.
    rewrite select_all_rows.
    rewrite (select_none (contour_rows (contour_blocks (s0 + 1) rest) s0)).
    + apply app_nil_r.
    + apply contour_rows_other. intros r Hr.
      apply contour_blocks_numbers in Hr. lia.
  - cbn [nth_error] in Hk.
    rewrite (select_none (contour_rows (contour_block s0 (values c)) _)).
    + cbn [app]. replace (s0 + Z.of_nat (S k)) with (s0 + 1 + Z.of_nat k)
        by lia. now apply IH.
    + apply contour_rows_other. intros r Hr. unfold contour_block in Hr.
      apply in_map_iff in Hr. destruct Hr as (row & <- & _). cbn. lia.
Qed.

(** X11. On the point array stored for an ROI, the closed contours that
    [get_polygon_mask] loops over ([np.unique] of the last column) are
    the positions [0 .. n - 1] of the contours in [ContourSequence], in
    increasing order, and the rows it selects for the position [k] are the
    points of that contour, at least one, in the order of its
    [ContourData]. *)
Theorem roi_point_array_contours (contours : list contour_data) rows :
  roi_point_array contours = Returns rows ->
  closed_contours rows = positions (List.length contours) /\
  forall k pts_temp,
    nth_error contours k = Some pts_temp ->
    select (contour_rows rows (Z.of_nat k)) rows
    = contour_block (Z.of_nat k) (values pts_temp) /\
    contour_block (Z.of_nat k) (values pts_temp) <> [].
Proof.
  intros Hrun. apply roi_point_array_returned in Hrun.
  destruct Hrun as [Hwhole ->]. split.
  - rewrite closed_contours_blocks by exact Hwhole. reflexivity.
  - intros k pts_temp Hk. split.
    + apply (select_blocks contours 0 k pts_temp Hk).
    + apply contour_block_not_nil.
      rewrite Forall_forall in Hwhole. apply Hwhole.
      now apply nth_error_In with (n := k).
Qed.

Lemma roi_point_array_contours_witness :
  closed_contours (contour_blocks 0 sample_contours) = [0; 1] /\
  forall k pts_temp,
    nth_error sample_contours k = Some pts_temp ->
    select (contour_rows (contour_blocks 0 sample_contours) (Z.of_nat k))
           (contour_blocks 0 sample_contours)
    = contour_block (Z.of_nat k) (values pts_temp) /\
    contour_block (Z.of_nat k) (values pts_temp) <> [].
Proof.
  apply (roi_point_array_contours sample_contours). reflexivity.
Defined.

(** ** Spatial reference of the volume *)

(** X12. The reference built for a scan (lines 131-148) has the extent of
    the voxel array and the spacings of the diagonal of [scaling_m], its
    world limits span extent times spacing, and whatever lower limit a
    fresh [imref3d] starts from, an index [(i, j, k)] placed at
    [min + (index + c) * spacing] lies at
    [rotation_m @ ijk_to_xyz[:3, 3] + (index + c - 1/2) * spacing]: the
    grid origin is the centre of the first voxel when indices are centred
    half a spacing above the lower limit. *)
Theorem scan_spatial_ref_grid (fresh_min : Q) (size_image : Z * Z * Z)
        (ijk_to_xyz : mat4) (rotation_m scaling_m : mat3) (c i j k : Q) :
  let R := scan_spatial_ref fresh_min size_image ijk_to_xyz rotation_m
                            scaling_m in
  let min_grid := matvec rotation_m (last_column ijk_to_xyz) in
  ImageSize R = size_image /\
  PixelExtentInWorldX R = column 0 (fst (fst scaling_m)) /\
  PixelExtentInWorldY R = column 1 (snd (fst scaling_m)) /\
  PixelExtentInWorldZ R = column 2 (snd scaling_m) /\
  limits_consistent R /\
  world_eq (index_to_world c R i j k)
           ((column 0 min_grid + (i + c - (1 # 2)) * PixelExtentInWorldX R)%Q,
            (column 1 min_grid + (j + c - (1 # 2)) * PixelExtentInWorldY R)%Q,
            (column 2 min_grid + (k + c - (1 # 2)) * PixelExtentInWorldZ R)%Q).
Proof.
  destruct scaling_m as [[s0 s1] s2]. destruct size_image as [[n0 n1] n2].
  unfold scan_spatial_ref. cbv zeta.
  set (g := matvec rotation_m (last_column ijk_to_xyz)). clearbody g.
  set (px := column 0 s0). set (py := column 1 s1). set (pz := column 2 s2).
  unfold limits_consistent, world_eq, index_to_world. cbn.
  repeat split; try reflexivity; clearbody px py pz; field.
Qed.

(* ================================================================== *)
(** * The tight box of [compute_box] *)

Lemma shrink_loop_zero fuel shape b :
  exists dt, shrink_loop int64 (S fuel) shape b (0, 0, 0) = Ok (dt, (0, 0, 0)).
Proof.
  cbn [shrink_loop check_as].
  destruct (check shape b (0, 0, 0) =? 6); [now exists int64|].
  now exists float64.
Qed.

(** X13. A crop specification that requests no margin on the bounding box
    of the mask (as "box0", or "1box": a factor of 1) gives what "box"
    gives, also when the tight box does not pass the six bound checks: the
    loop then halves the zero margin and stops on its sum. *)
Theorem zero_margin_is_tight_box {A} (im : imref_module) (fuel fuel' : nat)
        (vol : array3 A) (roi : array3 bool) (spatial_ref : imref3d)
        (box_string : string) :
  PyStr.contains "box" box_string = true ->
  (forall b, compute_bounding_box roi = Ok b ->
             requested_margin b box_string = Ok (0, 0, 0)) ->
  compute_box im (S fuel) vol roi spatial_ref box_string
  = compute_box im fuel' vol roi spatial_ref "box".
Proof.
  intros Hbox Hzero. unfold compute_box. rewrite Hbox.
  change (PyStr.contains "box" "box") with true. cbv iota.
  unfold final_box.
  destruct (compute_bounding_box roi) as [b|e] eqn:Hb; [|reflexivity].
  cbn [bind]. change (String.eqb "box" "box") with true. cbn [negb].
  destruct (String.eqb box_string "box"); cbn [negb]; [reflexivity|].
  rewrite (Hzero b eq_refl). cbn [bind].
  destruct (shrink_loop_zero fuel (shape3 vol) b) as [dt ->].
  cbn [bind fst snd].
  now rewrite !expand_as_nonneg by (cbn; lia).
Qed.

Lemma zero_margin_is_tight_box_witness :
  compute_box spec_imref 1 small_vol sample_roi sample_ref "1box"
  = compute_box spec_imref 0 small_vol sample_roi sample_ref "box".
Proof.
  apply (zero_margin_is_tight_box spec_imref 0 0 small_vol sample_roi
           sample_ref "1box").
  - reflexivity.
  - intros b Hb. vm_compute in Hb. injection Hb as <-. reflexivity.
Defined.
